(** * Dopri8: the Dormand-Prince 8(7) tableau and its dense output

    A shallow embedding of [diffrax/solver/dopri8.py].

    - The coefficient tables ([_dopri8_tableau], [eval_coeffs],
      [diff_coeffs]) are kept as exact rationals ([Q]), written as the
      source writes them, so that every statement about them is decided
      by computation.
    - The interpolation methods ([evaluate], [derivative]) are embedded
      over the real numbers: the floating-point arithmetic of the source
      is idealised to exact arithmetic, and a division whose divisor is
      zero has no value.  Arrays are lists; a shape error of an array
      operation is the absence of a value as well. *)

From Stdlib Require Import QArith Qabs Qreals Reals Lra Lia List Bool PeanoNat
  Compare_dec.
Import ListNotations.

(** ** Arrays and array operations

    A one-dimensional array is a list of its entries, a two-dimensional
    array the list of its rows.  Operations that numpy and jax.numpy
    refuse on incompatible shapes return [None]. *)

Module Arrays.

Local Open Scope R_scope.

(** Sequencing of computations that may have no value. *)
Definition bind {A B} (c : option A) (g : A -> option B) : option B :=
  match c with
  | Some a => g a
  | None => None
  end.

Notation "x <- c ;; g" := (bind c (fun x => g))
  (at level 61, c at next level, right associativity).

(** [a / b] on scalars.  A zero divisor yields no (finite) value. *)
Definition fdiv (a b : R) : option R :=
  if Req_dec_T b 0 then None else Some (a / b).

(** Elementwise combination of two rows of equal length. *)
Fixpoint zip_with {A B C} (g : A -> B -> C) (u : list A) (v : list B) : list C :=
  match u, v with
  | a :: u', b :: v' => g a b :: zip_with g u' v'
  | _, _ => []
  end.

(** [jnp.polyval(p, x)]: Horner's rule, highest power first, started
    from zero. *)
Definition polyval (p : list R) (x : R) : R :=
  fold_left (fun y c => y * x + c) p 0.

(** [_vmap_polyval = jax.vmap(jnp.polyval, in_axes=(0, None))]: one
    polynomial per row, all evaluated at the same point. *)
Definition _vmap_polyval (ps : list (list R)) (x : R) : list R :=
  map (fun p => polyval p x) ps.

(** [v * t] and [m * t] for a scalar [t]. *)
Definition vscale (v : list R) (t : R) : list R := map (fun c => c * t) v.
Definition mscale (m : list (list R)) (t : R) : list (list R) :=
  map (fun row => vscale row t) m.

(** Inner product of two vectors. *)
Definition dot (u v : list R) : R := fold_right Rplus 0 (zip_with Rmult u v).

(** Column [j] of a two-dimensional array and its number of columns. *)
Definition column (j : nat) (m : list (list R)) : list R :=
  map (fun row => nth j row 0) m.
Definition ncols (m : list (list R)) : nat :=
  match m with
  | [] => O
  | row :: _ => length row
  end.

(** [c @ m] for a vector [c] of shape (n,) and an array [m] of shape
    (n, d): the vector of shape (d,) whose entry [j] is the inner
    product of [c] with column [j].  Refused when the sizes differ. *)
Definition matmul (c : list R) (m : list (list R)) : option (list R) :=
  if Nat.eqb (length c) (length m)
  then Some (map (fun j => dot c (column j m)) (seq 0 (ncols m)))
  else None.

(** Elementwise binary operation on one-dimensional arrays, with
    numpy's broadcasting: equal sizes, or one operand of size one. *)
Definition broadcast (op : R -> R -> R) (u v : list R) : option (list R) :=
  if Nat.eqb (length u) (length v) then Some (zip_with op u v)
  else if Nat.eqb (length u) 1 then Some (map (op (hd 0 u)) v)
  else if Nat.eqb (length v) 1 then Some (map (fun x => op x (hd 0 v)) u)
  else None.

Definition add_arr : list R -> list R -> option (list R) := broadcast Rplus.
Definition sub_arr : list R -> list R -> option (list R) := broadcast Rminus.

(** [np.asarray] of a table of exact constants. *)
Definition asarray1 (v : list Q) : list R := map Q2R v.
Definition asarray (m : list (list Q)) : list (list R) := map asarray1 m.

End Arrays.

(** ** Exact rational tables *)

Module Tableau.

Local Open Scope Q_scope.

(** [ButcherTableau(alpha=..., beta=..., c_sol=..., c_error=...)] *)
Record ButcherTableau : Type := mkButcherTableau {
  alpha : list Q;
  beta : list (list Q);
  c_sol : list Q;
  c_error : list Q
}.

Definition _dopri8_tableau : ButcherTableau := {|
  alpha :=
    [ 1 / 18;
      1 / 12;
      1 / 8;
      5 / 16;
      3 / 8;
      59 / 400;
      93 / 200;
      5490023248 / 9719169821;
      13 / 20;
      1201146811 / 1299019798;
      1;
      1;
      1 ];
  beta :=
    [ [ 1 / 18 ];
      [ 1 / 48; 1 / 16 ];
      [ 1 / 32; 0; 3 / 32 ];
      [ 5 / 16; 0; -75 / 64; 75 / 64 ];
      [ 3 / 80; 0; 0; 3 / 16; 3 / 20 ];
      [ 29443841 / 614563906;
        0;
        0;
        77736538 / 692538347;
        -28693883 / 1125000000;
        23124283 / 1800000000 ];
      [ 16016141 / 946692911;
        0;
        0;
        61564180 / 158732637;
        22789713 / 633445777;
        545815736 / 2771057229;
        -180193667 / 1043307555 ];
      [ 39632708 / 573591083;
        0;
        0;
        -433636366 / 683701615;
        -421739975 / 2616292301;
        100302831 / 723423059;
        790204164 / 839813087;
        800635310 / 3783071287 ];
      [ 246121993 / 1340847787;
        0;
        0;
        -37695042795 / 15268766246;
        -309121744 / 1061227803;
        -12992083 / 490766935;
        6005943493 / 2108947869;
        393006217 / 1396673457;
        123872331 / 1001029789 ];
      [ -1028468189 / 846180014;
        0;
        0;
        8478235783 / 508512852;
        1311729495 / 1432422823;
        -10304129995 / 1701304382;
        -48777925059 / 3047939560;
        15336726248 / 1032824649;
        -45442868181 / 3398467696;
        3065993473 / 597172653 ];
      [ 185892177 / 718116043;
        0;
        0;
        -3185094517 / 667107341;
        -477755414 / 1098053517;
        -703635378 / 230739211;
        5731566787 / 1027545527;
        5232866602 / 850066563;
        -4093664535 / 808688257;
        3962137247 / 1805957418;
        65686358 / 487910083 ];
      [ 403863854 / 491063109;
        0;
        0;
        -5068492393 / 434740067;
        -411421997 / 543043805;
        652783627 / 914296604;
        11173962825 / 925320556;
        -13158990841 / 6184727034;
        3936647629 / 1978049680;
        -160528059 / 685178525;
        248638103 / 1413531060;
        0 ];
      [ 14005451 / 335480064;
        0;
        0;
        0;
        0;
        -59238493 / 1068277825;
        181606767 / 758867731;
        561292985 / 797845732;
        -1041891430 / 1371343529;
        760417239 / 1151165299;
        118820643 / 751138087;
        -528747749 / 2220607170;
        1 / 4 ] ];
  c_sol :=
    [ 14005451 / 335480064;
      0;
      0;
      0;
      0;
      -59238493 / 1068277825;
      181606767 / 758867731;
      561292985 / 797845732;
      -1041891430 / 1371343529;
      760417239 / 1151165299;
      118820643 / 751138087;
      -528747749 / 2220607170;
      1 / 4;
      0 ];
  c_error :=
    [ 14005451 / 335480064 - 13451932 / 455176623;
      0;
      0;
      0;
      0;
      -59238493 / 1068277825 - -808719846 / 976000145;
      181606767 / 758867731 - 1757004468 / 5645159321;
      561292985 / 797845732 - 656045339 / 265891186;
      -1041891430 / 1371343529 - -3867574721 / 1518517206;
      760417239 / 1151165299 - 465885868 / 322736535;
      118820643 / 751138087 - 53011238 / 667516719;
      -528747749 / 2220607170 - 2 / 45;
      1 / 4;
      0 ]
|}.

(** Exact sum of a vector of rationals. *)
Definition Qsum (l : list Q) : Q := fold_left Qplus l 0.

(** The number of stages of a tableau: one derivative sample per entry
    of the solution weights. *)
Definition stage_count (tb : ButcherTableau) : nat := length (c_sol tb).

(** [row_consistent tol row a]: the row sums to [a] up to [tol]. *)
Definition row_consistent (tol : Q) (row : list Q) (a : Q) : Prop :=
  Qabs (Qsum row - a) <= tol.

Definition row_consistentb (tol : Q) (row : list Q) (a : Q) : bool :=
  Qle_bool (Qabs (Qsum row - a)) tol.

End Tableau.

(** ** The local interpolation *)

Module Dopri8Interpolation.

Import Arrays.

Local Open Scope Q_scope.

(** [eval_coeffs]: one row per stage, highest power first. *)
Definition eval_coeffs : list (list Q) :=
  [
    [ -6.3448349392860401388;
      22.1396504998094068976;
      -30.0610568289666450593;
      19.9990069333683970610;
      -6.6910181737837595697;
      1 ];
    [ 0; 0; 0; 0; 0; 0 ];
    [ 0; 0; 0; 0; 0; 0 ];
    [ 0; 0; 0; 0; 0; 0 ];
    [ 0; 0; 0; 0; 0; 0 ];
    [ -39.6107919852202505218;
      116.4422149550342161651;
      -121.4999627731334642623;
      52.2273532792945524050;
      -7.6142658045872677172;
      0 ];
    [ 20.3761213808791436958;
      -67.1451318825957197185;
      83.1721004639847717481;
      -46.8919164181093621583;
      10.7281392630428866124;
      0 ];
    [ 7.3347098826795362023;
      -16.5672243527496524646;
      9.5724507555993664382;
      -0.1890893225010595467;
      0.5526637063753648783;
      0 ];
    [ 32.8801774352459155182;
      -89.9916014847245016028;
      87.8406057677205645007;
      -35.7075975946222072821;
      4.2186562625665153803;
      0 ];
    [ -10.1588990526426760954;
      22.6237489648532849093;
      -17.4152107770762969005;
      6.2736448083240352160;
      -0.6627209125361597559;
      0 ];
    [ -12.5401268098782561200;
      32.2362340167355370113;
      -28.5903289514790976966;
      10.3160881272450748458;
      -1.2636789001135462218;
      0 ];
    [ 29.5553001484516038033;
      -82.1020315488359848644;
      81.6630950584341412934;
      -34.7650769866611817349;
      5.4106037898590422230;
      0 ];
    [ -41.7923486424390588923;
      116.2662185791119533462;
      -114.9375291377009418170;
      47.7457971078225540396;
      -7.0321379067945741781;
      0 ];
    [ 20.3006925822100825485;
      -53.9020777466385396792;
      50.2558364226176017553;
      -19.0082099341608028453;
      2.3537586759714983486;
      0 ]
  ].

(** [diff_coeffs = eval_coeffs * np.array([6, 5, 4, 3, 2, 1])]: the
    vector is broadcast along the rows. *)
Definition diff_coeffs : list (list Q) :=
  map (fun row => zip_with Qmult row [6; 5; 4; 3; 2; 1]) eval_coeffs.

Local Open Scope R_scope.

(** The fields of the class; [t0] and [t1] are those of
    [AbstractLocalInterpolation].  [y1] is kept for API compatibility
    and [k] is declared with 14 rows, one per stage. *)
Record _Dopri8Interpolation : Type := mk_Dopri8Interpolation {
  t0 : R;
  t1 : R;
  y0 : list R;
  y1 : list R;
  k : list (list R)
}.

(** The shapes the class declares: [k] is an array with 14 rows whose
    rows have the size of the state [y0]. *)
Definition shape_ok (self : _Dopri8Interpolation) : bool :=
  Nat.eqb (length (k self)) 14 &&
  forallb (fun row => Nat.eqb (length row) (length (y0 self))) (k self).

(** [evaluate(self, t0)] with [t1 = None]. *)
Definition evaluate1 (self : _Dopri8Interpolation) (tq : R) : option (list R) :=
  t <- fdiv (tq - t0 self) (t1 self - t0 self) ;;
  let coeffs := vscale (_vmap_polyval (asarray eval_coeffs) t) t in
  v <- matmul coeffs (k self) ;;
  add_arr (y0 self) v.

(** [evaluate(self, t0, t1=None)]. *)
Definition evaluate (self : _Dopri8Interpolation) (tq0 : R) (tq1 : option R)
  : option (list R) :=
  match tq1 with
  | Some tq1 =>
      e1 <- evaluate1 self tq1 ;;
      e0 <- evaluate1 self tq0 ;;
      sub_arr e1 e0
  | None => evaluate1 self tq0
  end.

(** [derivative(self, t)]. *)
Definition derivative (self : _Dopri8Interpolation) (tq : R) : option (list R) :=
  _rt <- fdiv 1 (t1 self - t0 self) ;;
  let t := (tq - t0 self) * _rt in
  let coeffs := _vmap_polyval (asarray diff_coeffs) t in
  matmul coeffs (mscale (k self) _rt).

(** The normalised time of a query. *)
Definition tau (self : _Dopri8Interpolation) (tq : R) : R :=
  (tq - t0 self) / (t1 self - t0 self).

(** The coefficient vector of [evaluate] at normalised time [x]. *)
Definition eval_row_values (x : R) : list R :=
  vscale (_vmap_polyval (asarray eval_coeffs) x) x.

(** The value of the single-argument [evaluate] on an interpolation of
    the declared shapes: entry [j] is
    [y0[j] + sum_i coeffs[i] * k[i][j]]. *)
Definition evaluate_value (self : _Dopri8Interpolation) (tq : R) : list R :=
  zip_with Rplus (y0 self)
    (map (fun j => dot (eval_row_values (tau self tq)) (column j (k self)))
         (seq 0 (length (y0 self)))).

(** The value of [derivative] on an interpolation of the declared
    shapes. *)
Definition derivative_value (self : _Dopri8Interpolation) (tq : R) : list R :=
  let _rt := 1 / (t1 self - t0 self) in
  map (fun j => dot (_vmap_polyval (asarray diff_coeffs) ((tq - t0 self) * _rt))
                    (column j (mscale (k self) _rt)))
      (seq 0 (length (y0 self))).

(** The dense-output polynomial of one stage written in the power basis:
    for the row [c5; c4; c3; c2; c1; c0] it is
    [c5 x^6 + c4 x^5 + ... + c0 x], that is [x] times the polynomial of
    the row. *)
Fixpoint power_poly (row : list R) (x : R) : R :=
  match row with
  | [] => 0
  | c :: rest => c * x ^ length row + power_poly rest x
  end.

(** Entry [j] of the interpolating polynomial at normalised time [x]:
    [y0 + sum_i poly_i(x) * k[i]]. *)
Definition dense_value (self : _Dopri8Interpolation) (x : R) (j : nat) : R :=
  nth j (y0 self) 0 +
  dot (map (fun row => power_poly row x) (asarray eval_coeffs)) (column j (k self)).

(** Sum of the magnitudes of column [j] of the stage array. *)
Definition column_size (j : nat) (m : list (list R)) : R :=
  fold_right Rplus 0 (map Rabs (column j m)).

(** Horner's rule on exact rationals, for computing with the tables. *)
Definition Qpolyval (p : list Q) (x : Q) : Q :=
  fold_left (fun y c => y * x + c)%Q p 0%Q.

(** [within tol q]: the rational [q] lies in [[-tol, tol]]. *)
Definition within (tol q : Q) : bool :=
  Qle_bool (- tol) q && Qle_bool q tol.


End Dopri8Interpolation.

(** ** The explicit Runge-Kutta step *)

Module RungeKutta.

Import Arrays.

Section Stepper.

Local Open Scope R_scope.

(** The state is any structure with an addition and a multiplication by
    scalars; [f] is the vector field. *)
Variable State : Type.
Variable sadd : State -> State -> State.
Variable smul : R -> State -> State.
Variable szero : State.
Variable f : R -> State -> State.

(** [sum_j w[j] * ks[j]] over the stages already computed. *)
Definition lincomb (w : list R) (ks : list State) : State :=
  fold_left (fun acc wk => sadd acc (smul (fst wk) (snd wk))) (combine w ks) szero.

(** [y0 + dt * sum_j w[j] * ks[j]]. *)
Definition combine_stages (y0 : State) (dt : R) (w : list R) (ks : list State)
  : State :=
  sadd y0 (smul dt (lincomb w ks)).

(** Modelled from the spec: the stage loop of the stepper (section 4.2,
    step 2), whose code is in [runge_kutta.py], not in this file's
    source.  For each later stage, with time fraction [a] and weights
    [b], the stage state is [y0 + dt * sum_j b[j] * ks[j]] and the stage
    derivative is [f (t0 + a * dt)] of it.  The loop carries the stage
    states [ys] and the stage derivatives [ks] computed so far. *)
Fixpoint stages (t0 : R) (y0 : State) (dt : R) (ab : list (R * list R))
  (ys ks : list State) : list State * list State :=
  match ab with
  | [] => (ys, ks)
  | (a, b) :: rest =>
      let yi := combine_stages y0 dt b ks in
      stages t0 y0 dt rest (ys ++ [yi]) (ks ++ [f (t0 + a * dt) yi])
  end.

Record StepResult : Type := mkStepResult {
  new_state : State;
  stage_derivatives : list State;
  error_estimate : State
}.

(** Modelled from the spec: the states at which the stage derivatives
    are sampled (section 4.2, steps 1 and 2); the first one is [y0]. *)
Definition stage_states (tb : Tableau.ButcherTableau) (t0 : R) (y0 : State)
  (dt : R) : list State :=
  fst (stages t0 y0 dt
         (combine (asarray1 (Tableau.alpha tb)) (asarray (Tableau.beta tb)))
         [y0] [f t0 y0]).

(** Modelled from the spec: one step of the stepper (section 4.2, steps
    1 to 4), returning the new state, all stage derivatives and the
    error estimate. *)
Definition step (tb : Tableau.ButcherTableau) (t0 : R) (y0 : State) (dt : R)
  : StepResult :=
  let ks := snd (stages t0 y0 dt
                   (combine (asarray1 (Tableau.alpha tb))
                            (asarray (Tableau.beta tb)))
                   [y0] [f t0 y0]) in
  {| new_state := combine_stages y0 dt (asarray1 (Tableau.c_sol tb)) ks;
     stage_derivatives := ks;
     error_estimate := smul dt (lincomb (asarray1 (Tableau.c_error tb)) ks) |}.

End Stepper.

End RungeKutta.

(** ** Sample data *)

Module Samples.

Import Arrays Dopri8Interpolation.

Local Open Scope R_scope.

(** The interpolation of one step of [dy/dt = 1] from [t = 0] to
    [t = 2], started at [y = 0]: every stage increment is [2], and the
    endpoint state is the one the step forms from them. *)
Definition unit_slope : _Dopri8Interpolation := {|
  t0 := 0;
  t1 := 2;
  y0 := [0];
  y1 := [0 + dot (asarray1 (Tableau.c_sol Tableau._dopri8_tableau))
               (repeat 2 14)];
  k := repeat [2] 14
|}.

(** The vector field of [dy/dt = -y] on scalar states. *)
Definition decay (t y : R) : R := - y.

End Samples.

(** ** The solver class and the conditions its tables are checked against *)

Module Dopri8.

Import Arrays Tableau Dopri8Interpolation.

(** [class Dopri8(RungeKutta)]: the attributes [tableau] and [order]. *)
Definition tableau : ButcherTableau := _dopri8_tableau.
Definition order : nat := 8.

(** [c ^ n] on exact rationals. *)
Fixpoint Qpown (c : Q) (n : nat) : Q :=
  match n with
  | O => 1%Q
  | S m => (c * Qpown c m)%Q
  end.

(** The time fraction of every stage: the first stage is sampled at the
    start of the step, the later ones at [alpha]. *)
Definition nodes (tb : ButcherTableau) : list Q := 0%Q :: alpha tb.

(** [sum_i w[i] * c[i]^n]. *)
Definition moment (w c : list Q) (n : nat) : Q :=
  Qsum (zip_with (fun wi ci => wi * Qpown ci n)%Q w c).

(** [1 / q] for a positive integer [q]. *)
Definition Qrecip (q : nat) : Q := (1 / inject_Z (Z.of_nat q))%Q.

Definition momentb (tol : Q) (w c : list Q) (target : Q) (n : nat) : bool :=
  within tol (moment w c n - target)%Q.

(** The shape of an explicit tableau: as many rows of [beta] as entries
    of [alpha], row [i] of [beta] with [i + 1] entries, and one weight
    per stage in [c_sol] and [c_error]. *)
Definition explicit_shape (tb : ButcherTableau) : bool :=
  Nat.eqb (length (beta tb)) (length (alpha tb)) &&
  forallb (fun ir => Nat.eqb (length (snd ir)) (S (fst ir)))
          (combine (seq 0 (length (beta tb))) (beta tb)) &&
  Nat.eqb (length (c_sol tb)) (S (length (alpha tb))) &&
  Nat.eqb (length (c_error tb)) (S (length (alpha tb))).

(** A time fraction inside the step: [0 < a <= 1]. *)
Definition fraction_ok (a : Q) : bool :=
  negb (Qle_bool a 0) && Qle_bool a 1.

(** The vector of size [n] with a one at index [i]. *)
Definition unit_vector (i n : nat) : list Q :=
  map (fun m => if Nat.eqb m i then 1%Q else 0%Q) (seq 0 n).

(** [sum_i ws[i] * rows[i]], a row of six coefficients. *)
Definition Qwsum (ws : list Q) (rows : list (list Q)) : list Q :=
  fold_right (fun wr acc => zip_with Qplus (map (Qmult (fst wr)) (snd wr)) acc)
             (repeat 0%Q 6) (combine ws rows).

(** The row of the polynomial [x^q / q] in the layout of [power_poly]:
    powers 6 down to 1. *)
Definition monomial_row (q : nat) : list Q :=
  map (fun m => if Nat.eqb m q then Qrecip q else 0%Q) [6; 5; 4; 3; 2; 1]%nat.

(** Two rows agree entry by entry up to [tol]. *)
Definition rows_within (tol : Q) (r r' : list Q) : bool :=
  Nat.eqb (length r) (length r') &&
  forallb (fun ab => within tol (fst ab - snd ab)%Q) (combine r r').

(** The dense output against the stage values of the vector field
    [x^n] of the normalised time: the combined polynomial
    [sum_i c_i^n * poly_i] agrees with [x^(n+1) / (n+1)] up to [tol]. *)
Definition dense_momentb (tol : Q) (n : nat) : bool :=
  rows_within tol
    (Qwsum (map (fun c => Qpown c n) (nodes tableau)) eval_coeffs)
    (monomial_row (S n)).

Local Open Scope R_scope.

(** [|x| + |x|^2 + ... + |x|^n]. *)
Fixpoint abs_powers (x : R) (n : nat) : R :=
  match n with
  | O => 0
  | S m => Rabs x ^ n + abs_powers x m
  end.

(** The stage array of a step on the vector field [v * x^n] of the
    normalised time [x]: row [i] is [v * c_i^n], with [c_i] the time
    fraction of stage [i]. *)
Definition monomial_stages (v : list R) (n : nat) : list (list R) :=
  map (fun c => vscale v (Q2R c ^ n)) (nodes tableau).


(** Sizes of two one-dimensional arrays that broadcast against each
    other, and the size of the result. *)
Definition broadcastable (n m : nat) : bool :=
  Nat.eqb n m || Nat.eqb n 1 || Nat.eqb m 1.
Definition broadcast_size (n m : nat) : nat :=
  if Nat.eqb n m then n else if Nat.eqb n 1 then m else n.

End Dopri8.

(** ** More sample data *)

Module MoreSamples.

Import Arrays Dopri8Interpolation Dopri8.

Local Open Scope R_scope.

(** The interpolation of a step from [t = 0] to [t = 2] on the vector
    field [3 x^2] of the normalised time, started at [y = 1]. *)
Definition square_field : _Dopri8Interpolation := {|
  t0 := 0;
  t1 := 2;
  y0 := [1];
  y1 := [2];
  k := monomial_stages [3] 2
|}.

(** A stage array with two state entries whose rows differ. *)
Definition ramp_stages : list (list R) :=
  map (fun i => [INR i; 1]) (seq 0 14).

Definition ramp : _Dopri8Interpolation := {|
  t0 := 1;
  t1 := 3;
  y0 := [0; 5];
  y1 := [0; 0];
  k := ramp_stages
|}.

(** The same interpolation with other rows for stages 2 to 5. *)
Definition ramp_other_stages : list (list R) :=
  map (fun i => if Nat.leb 1 i && Nat.leb i 4 then [7; 7] else [INR i; 1])
      (seq 0 14).

Definition ramp_other : _Dopri8Interpolation := {|
  t0 := 1;
  t1 := 3;
  y0 := [0; 5];
  y1 := [0; 0];
  k := ramp_other_stages
|}.

End MoreSamples.

(** ** The interpolation of a step *)

Module StepInterpolation.

Import Arrays Tableau Dopri8Interpolation.

Local Open Scope R_scope.








End StepInterpolation.

(** * Properties *)

Import Arrays Tableau Dopri8Interpolation Samples.

(** ** The tableau *)

Section TableauFacts.

Local Open Scope Q_scope.

Lemma row_consistentb_spec tol row a :
  row_consistentb tol row a = true -> row_consistent tol row a.
Proof. unfold row_consistentb, row_consistent. apply Qle_bool_imp_le. Qed.

Lemma Forall2_of_forallb {A B} (p : A -> B -> bool) (P : A -> B -> Prop) :
  (forall a b, p a b = true -> P a b) ->
  forall l1 l2,
    length l1 = length l2 ->
    forallb (fun ab => p (fst ab) (snd ab)) (combine l1 l2) = true ->
    Forall2 P l1 l2.
Proof.
  intros Hp l1; induction l1 as [|a l1 IH]; intros [|b l2] Hlen Hall;
    simpl in *; try discriminate; constructor.
  - apply Hp. apply andb_prop in Hall. tauto.
  - apply IH; [congruence|]. apply andb_prop in Hall. tauto.
Qed.

(** C4: every row of the stage weights [beta] sums, in exact rational
    arithmetic, to the time fraction [alpha] of its stage up to 1e-12;
    there are 13 such rows, one per entry of [alpha]. *)
Theorem beta_rows_sum_to_alpha :
  length (beta _dopri8_tableau) = 13%nat /\
  length (alpha _dopri8_tableau) = 13%nat /\
  Forall2 (row_consistent 1e-12) (beta _dopri8_tableau) (alpha _dopri8_tableau).
Proof.
  split; [reflexivity|]. split; [reflexivity|].
  apply (Forall2_of_forallb (row_consistentb 1e-12)).
  - intros row a. apply row_consistentb_spec.
  - reflexivity.
  - vm_compute. reflexivity.
Qed.

(** The first five rows are exact, the later ones are not: they agree
    with [alpha] to 2e-17. *)
Lemma beta_rows_sum_tight :
  Forall2 (row_consistent 2e-17) (beta _dopri8_tableau) (alpha _dopri8_tableau).
Proof.
  apply (Forall2_of_forallb (row_consistentb 2e-17)).
  - intros row a. apply row_consistentb_spec.
  - reflexivity.
  - vm_compute. reflexivity.
Qed.

(** C5, as stated, fails: the exact sum of [c_sol] is not 1. *)
Lemma c_sol_sum_not_one : ~ Qsum (c_sol _dopri8_tableau) == 1.
Proof. intro H. vm_compute in H. discriminate H. Qed.

(** C5, amended: the exact sum of [c_sol] lies strictly below 1, by less
    than 4e-18. *)
Theorem c_sol_sum_near_one :
  Qsum (c_sol _dopri8_tableau) < 1 /\
  1 - Qsum (c_sol _dopri8_tableau) < 4e-18.
Proof. split; vm_compute; reflexivity. Qed.

(** C6, as stated, fails: the stage count is not 13. *)
Lemma stage_count_not_13 : stage_count _dopri8_tableau <> 13%nat.
Proof. vm_compute. discriminate. Qed.

End TableauFacts.

(** ** Array operations *)

Section ArrayFacts.

Local Open Scope R_scope.

Lemma fdiv_some a b : b <> 0 -> fdiv a b = Some (a / b).
Proof. intro Hb. unfold fdiv. destruct (Req_dec_T b 0); [contradiction|reflexivity]. Qed.

Lemma length_zip_with {A B C} (g : A -> B -> C) u v :
  length u = length v -> length (zip_with g u v) = length u.
Proof.
  revert v; induction u as [|a u IH]; intros [|b v] H; simpl in *;
    try discriminate; auto.
Qed.

Lemma nth_zip_with (g : R -> R -> R) u v j :
  length u = length v -> (j < length u)%nat ->
  nth j (zip_with g u v) 0 = g (nth j u 0) (nth j v 0).
Proof.
  revert v j; induction u as [|a u IH]; intros [|b v] j Hlen Hj; simpl in *;
    try discriminate; try lia.
  destruct j as [|j]; [reflexivity|]. apply IH; [congruence|lia].
Qed.

Lemma nth_map_seq (g : nat -> R) d a j :
  (j < d)%nat -> nth j (map g (seq a d)) 0 = g (a + j)%nat.
Proof.
  revert a j; induction d as [|d IH]; intros a j Hj; [lia|].
  destruct j as [|j]; simpl.
  - f_equal. lia.
  - rewrite IH by lia. f_equal. lia.
Qed.

Lemma broadcast_same op u v :
  length u = length v -> broadcast op u v = Some (zip_with op u v).
Proof. intro H. unfold broadcast. rewrite H, Nat.eqb_refl. reflexivity. Qed.

Lemma matmul_some c m :
  length c = length m ->
  matmul c m = Some (map (fun j => dot c (column j m)) (seq 0 (ncols m))).
Proof. intro H. unfold matmul. rewrite H, Nat.eqb_refl. reflexivity. Qed.

Lemma matmul_rows c m v : matmul c m = Some v -> length c = length m.
Proof.
  unfold matmul. destruct (Nat.eqb (length c) (length m)) eqn:E; [|discriminate].
  intros _. now apply Nat.eqb_eq.
Qed.

Lemma dot_cons a u b v : dot (a :: u) (b :: v) = a * b + dot u v.
Proof. reflexivity. Qed.

(** A vector of zero coefficients contributes nothing. *)
Lemma dot_vscale_0 u col : dot (vscale u 0) col = 0.
Proof.
  revert col; induction u as [|a u IH]; intros [|b col]; try reflexivity.
  unfold vscale in *. simpl map. rewrite dot_cons, IH. ring.
Qed.

Lemma nth_vscale row r j : nth j (vscale row r) 0 = nth j row 0 * r.
Proof.
  unfold vscale. revert j; induction row as [|a row IH]; intros [|j]; simpl;
    try ring; auto.
Qed.

(** Scaling the array or scaling the coefficients is the same sum. *)
Lemma dot_column_mscale u m r j :
  dot u (column j (mscale m r)) = dot (vscale u r) (column j m).
Proof.
  revert m; induction u as [|a u IH]; intros [|row m]; try reflexivity.
  unfold column, mscale, vscale in *. simpl map. rewrite !dot_cons.
  rewrite IH. fold (vscale row r). rewrite nth_vscale. ring.
Qed.

Lemma zip_with_plus_zeros (g : nat -> R) y a :
  (forall j, g j = 0) -> zip_with Rplus y (map g (seq a (length y))) = y.
Proof.
  intro Hg. revert a; induction y as [|b y IH]; intro a; simpl; [reflexivity|].
  rewrite Hg, IH. f_equal. ring.
Qed.

(** Horner's rule agrees with the power basis. *)
Lemma horner_power p : forall acc x,
  fold_left (fun y c => y * x + c) p acc * x =
  acc * x ^ S (length p) + power_poly p x.
Proof.
  induction p as [|c p IH]; intros acc x.
  - simpl. ring.
  - simpl fold_left. rewrite IH. simpl. ring.
Qed.

Lemma polyval_power p x : polyval p x * x = power_poly p x.
Proof. unfold polyval. rewrite horner_power. ring. Qed.

Lemma vscale_vmap_polyval rows x :
  vscale (_vmap_polyval rows x) x = map (fun row => power_poly row x) rows.
Proof.
  unfold vscale, _vmap_polyval. rewrite map_map. apply map_ext.
  intro row. apply polyval_power.
Qed.

End ArrayFacts.

(** ** The interpolation: closed forms *)

Section InterpolationFacts.

Local Open Scope R_scope.

Variable self : _Dopri8Interpolation.
Hypothesis Hshape : shape_ok self = true.
Hypothesis Hstep : t1 self <> t0 self.

Lemma shape_rows : length (k self) = 14%nat.
Proof.
  unfold shape_ok in Hshape. apply andb_prop in Hshape.
  now apply Nat.eqb_eq.
Qed.

Lemma shape_ncols : ncols (k self) = length (y0 self).
Proof.
  pose proof shape_rows as Hr.
  unfold shape_ok in Hshape. apply andb_prop in Hshape as [_ Hall].
  destruct (k self) as [|row m]; [discriminate Hr|].
  simpl in Hall. apply andb_prop in Hall as [Hrow _].
  now apply Nat.eqb_eq.
Qed.

Lemma ncols_mscale m r : ncols (mscale m r) = ncols m.
Proof. destruct m; simpl; [reflexivity|]. unfold vscale. apply length_map. Qed.

Lemma step_nonzero : t1 self - t0 self <> 0.
Proof. intro H. apply Hstep. lra. Qed.

Lemma length_eval_row_values x : length (eval_row_values x) = 14%nat.
Proof. reflexivity. Qed.

Lemma evaluate1_some tq : evaluate1 self tq = Some (evaluate_value self tq).
Proof.
  unfold evaluate1. rewrite (fdiv_some _ _ step_nonzero).
  change (bind (Some ?a) ?g) with (g a). cbv beta zeta.
  change (vscale (_vmap_polyval (asarray eval_coeffs) ?x) ?x)
    with (eval_row_values x).
  rewrite matmul_some by (rewrite length_eval_row_values, shape_rows; reflexivity).
  change (bind (Some ?a) ?g) with (g a). cbv beta.
  unfold add_arr. rewrite broadcast_same.
  - rewrite shape_ncols. reflexivity.
  - rewrite length_map, length_seq. symmetry. apply shape_ncols.
Qed.

Lemma length_evaluate_value tq : length (evaluate_value self tq) = length (y0 self).
Proof.
  unfold evaluate_value. apply length_zip_with.
  now rewrite length_map, length_seq.
Qed.

Lemma nth_evaluate_value tq j :
  (j < length (y0 self))%nat ->
  nth j (evaluate_value self tq) 0 =
  nth j (y0 self) 0 + dot (eval_row_values (tau self tq)) (column j (k self)).
Proof.
  intro Hj. unfold evaluate_value.
  rewrite nth_zip_with; [|now rewrite length_map, length_seq|exact Hj].
  now rewrite nth_map_seq.
Qed.

Lemma derivative_some tq : derivative self tq = Some (derivative_value self tq).
Proof.
  unfold derivative. rewrite (fdiv_some _ _ step_nonzero).
  change (bind (Some ?a) ?g) with (g a). cbv beta zeta.
  rewrite matmul_some.
  - rewrite ncols_mscale, shape_ncols. reflexivity.
  - unfold mscale. rewrite length_map, shape_rows. reflexivity.
Qed.

Lemma length_derivative_value tq :
  length (derivative_value self tq) = length (y0 self).
Proof. unfold derivative_value. now rewrite length_map, length_seq. Qed.

Lemma nth_derivative_value tq j :
  (j < length (y0 self))%nat ->
  nth j (derivative_value self tq) 0 =
  dot (_vmap_polyval (asarray diff_coeffs)
         ((tq - t0 self) * (1 / (t1 self - t0 self))))
      (column j (mscale (k self) (1 / (t1 self - t0 self)))).
Proof. intro Hj. unfold derivative_value. now rewrite nth_map_seq. Qed.

End InterpolationFacts.

(** ** The interpolation: values at and between query times *)

Section InterpolationClaims.

Local Open Scope R_scope.

(** C3: on an interpolation of the declared shapes with [t1 <> t0], the
    single-argument [evaluate] at [t0] returns [y0] itself: the
    normalised time is zero there and every stage contribution
    vanishes. *)
Theorem evaluate_at_t0 (self : _Dopri8Interpolation) :
  shape_ok self = true ->
  t1 self <> t0 self ->
  evaluate self (t0 self) None = Some (y0 self).
Proof.
  intros Hshape Hstep. simpl. rewrite evaluate1_some by assumption.
  f_equal. unfold evaluate_value.
  apply zip_with_plus_zeros. intro j.
  unfold tau. rewrite Rminus_diag, Rdiv_0_l.
  unfold eval_row_values. apply dot_vscale_0.
Qed.

(** C7: the two-argument [evaluate(a, b)] is the difference of the two
    single-argument evaluations, [evaluate(b) - evaluate(a)], entry by
    entry. *)
Theorem evaluate_increment (self : _Dopri8Interpolation) (a b : R) :
  shape_ok self = true ->
  t1 self <> t0 self ->
  exists va vb,
    evaluate self a None = Some va /\
    evaluate self b None = Some vb /\
    length va = length vb /\
    evaluate self a (Some b) = Some (zip_with Rminus vb va).
Proof.
  intros Hshape Hstep.
  exists (evaluate_value self a), (evaluate_value self b).
  simpl. rewrite !evaluate1_some by assumption.
  repeat split.
  - now rewrite !length_evaluate_value.
  - change (bind (Some ?x) ?g) with (g x). cbv beta.
    unfold sub_arr. apply broadcast_same.
    now rewrite !length_evaluate_value.
Qed.

(** C8: [evaluate] and [derivative] have a value at every query time,
    inside the step interval or not; the value of [evaluate] is that of
    the interpolating polynomial at the normalised time, whatever the
    query time. *)
Theorem evaluate_derivative_total (self : _Dopri8Interpolation) (t : R) :
  shape_ok self = true ->
  t1 self <> t0 self ->
  exists v d,
    evaluate self t None = Some v /\
    derivative self t = Some d /\
    length v = length (y0 self) /\
    length d = length (y0 self) /\
    forall j, (j < length (y0 self))%nat ->
      nth j v 0 = dense_value self (tau self t) j.
Proof.
  intros Hshape Hstep.
  exists (evaluate_value self t), (derivative_value self t).
  split; [apply evaluate1_some; assumption|].
  split; [apply derivative_some; assumption|].
  split; [apply length_evaluate_value|].
  split; [apply length_derivative_value|].
  intros j Hj. rewrite nth_evaluate_value by assumption.
  unfold dense_value, eval_row_values. now rewrite vscale_vmap_polyval.
Qed.

(** C10: neither form of [evaluate] nor [derivative] reads the field
    [y1]: two interpolations that differ in [y1] only return the same
    results at every query. *)
Theorem y1_is_unused (a0 a1 : R) (u0 u1 u1' : list R) (m : list (list R))
  (tq0 : R) (tq1 : option R) :
  evaluate (mk_Dopri8Interpolation a0 a1 u0 u1 m) tq0 tq1 =
  evaluate (mk_Dopri8Interpolation a0 a1 u0 u1' m) tq0 tq1 /\
  derivative (mk_Dopri8Interpolation a0 a1 u0 u1 m) tq0 =
  derivative (mk_Dopri8Interpolation a0 a1 u0 u1' m) tq0.
Proof. split; reflexivity. Qed.

End InterpolationClaims.

(** ** The interpolation at the end of the step *)

Section Endpoint.

Local Open Scope R_scope.

Lemma polyval_Q2R p x : polyval (asarray1 p) (Q2R x) = Q2R (Qpolyval p x).
Proof.
  unfold polyval, Qpolyval. rewrite <- RMicromega.Q2R_0.
  generalize 0%Q as acc. induction p as [|c p IH]; intro acc; simpl.
  - reflexivity.
  - rewrite <- Q2R_mult, <- Q2R_plus. apply IH.
Qed.

Lemma within_Rabs tol q : within tol q = true -> Rabs (Q2R q) <= Q2R tol.
Proof.
  unfold within. intro H. apply andb_prop in H as [Hlo Hhi].
  apply Qle_bool_imp_le, Qle_Rle in Hlo, Hhi.
  rewrite Q2R_opp in Hlo. apply Rabs_le. split; assumption.
Qed.


Lemma Forall2_map {A B A' B'} (g : A -> A') (h : B -> B')
  (P : A' -> B' -> Prop) l1 l2 :
  Forall2 (fun a b => P (g a) (h b)) l1 l2 -> Forall2 P (map g l1) (map h l2).
Proof. induction 1; simpl; constructor; assumption. Qed.


(** Two coefficient vectors that agree up to [eps] entry by entry give
    sums that agree up to [eps] times the size of the column. *)
Lemma dot_close eps es cs :
  0 <= eps ->
  Forall2 (fun e c => Rabs (e - c) <= eps) es cs ->
  forall col,
    Rabs (dot es col - dot cs col) <= eps * fold_right Rplus 0 (map Rabs col).
Proof.
  intros Heps H. induction H as [|e c es cs Hec _ IH]; intros [|b col].
  - simpl. rewrite Rminus_diag, Rabs_R0. lra.
  - assert (Hs : 0 <= fold_right Rplus 0 (map Rabs (b :: col))).
    { generalize (b :: col). intro l. induction l as [|x l IHl]; simpl; [lra|].
      pose proof (Rabs_pos x). lra. }
    change (dot [] (b :: col)) with 0. rewrite Rminus_diag, Rabs_R0.
    apply Rmult_le_pos; assumption.
  - simpl. rewrite Rminus_diag, Rabs_R0. lra.
  - rewrite !dot_cons. simpl map. simpl fold_right.
    replace (e * b + dot es col - (c * b + dot cs col))
      with ((e - c) * b + (dot es col - dot cs col)) by ring.
    eapply Rle_trans; [apply Rabs_triang|].
    rewrite Rabs_mult. specialize (IH col).
    pose proof (Rabs_pos b).
    assert (Rabs (e - c) * Rabs b <= eps * Rabs b)
      by (apply Rmult_le_compat_r; assumption).
    lra.
Qed.


End Endpoint.

(** ** The derivative of the interpolation *)

Section Derivative.

Local Open Scope R_scope.

Lemma dlim_eq f x l l' :
  l = l' -> derivable_pt_lim f x l -> derivable_pt_lim f x l'.
Proof. intros <- H. exact H. Qed.

(** One Horner step, differentiated. *)
Lemma dlim_horner_step F F' c x :
  derivable_pt_lim F x F' ->
  derivable_pt_lim (fun s => F s * s + c) x (F' * x + F x).
Proof.
  intro HF.
  apply (derivable_pt_lim_ext (F * id + fct_cte c)%F); [reflexivity|].
  apply (dlim_eq _ _ (F' * id x + F x * 1 + 0)); [unfold id; ring|].
  apply derivable_pt_lim_plus; [|apply derivable_pt_lim_const].
  apply derivable_pt_lim_mult; [exact HF|apply derivable_pt_lim_id].
Qed.

(** Horner's rule differentiated: the derivative is carried along with
    the value. *)
Lemma dlim_horner p : forall F F' x,
  derivable_pt_lim F x F' ->
  derivable_pt_lim (fun s => fold_left (fun y c => y * s + c) p (F s)) x
    (snd (fold_left (fun vd c => (fst vd * x + c, snd vd * x + fst vd)) p
            (F x, F'))).
Proof.
  induction p as [|c p IH]; intros F F' x HF.
  - simpl. apply (derivable_pt_lim_ext F); [reflexivity|exact HF].
  - simpl fold_left.
    apply (IH (fun s => F s * s + c) (F' * x + F x) x).
    now apply dlim_horner_step.
Qed.

(** [d/dx (x * p(x))] for a row of six coefficients is the polynomial of
    [row * [6, 5, 4, 3, 2, 1]]. *)
Lemma dlim_row6 row x :
  length row = 6%nat ->
  derivable_pt_lim (fun u => polyval row u * u) x
    (polyval (zip_with Rmult row [6; 5; 4; 3; 2; 1]) x).
Proof.
  intro Hlen.
  destruct row as [|a [|b [|c [|d [|e [|g [|? ?]]]]]]]; try discriminate Hlen.
  pose proof (dlim_horner [a; b; c; d; e; g] (fun _ => 0) 0 x
                (derivable_pt_lim_const 0 x)) as Hp.
  apply (derivable_pt_lim_ext
           (mult_fct
              (fun s => fold_left (fun y c0 => y * s + c0) [a; b; c; d; e; g] 0)
              id)); [reflexivity|].
  eapply dlim_eq; [|apply derivable_pt_lim_mult;
                     [exact Hp|apply derivable_pt_lim_id]].
  unfold polyval, id. simpl. ring.
Qed.

Lemma dlim_tau (self : _Dopri8Interpolation) x :
  derivable_pt_lim (tau self) x (1 / (t1 self - t0 self)).
Proof.
  apply (derivable_pt_lim_ext
           ((id - fct_cte (t0 self)) * fct_cte (/ (t1 self - t0 self)))%F);
    [reflexivity|].
  eapply dlim_eq; [|apply derivable_pt_lim_mult;
                     [apply derivable_pt_lim_minus;
                      [apply derivable_pt_lim_id|apply derivable_pt_lim_const]
                     |apply derivable_pt_lim_const]].
  unfold fct_cte, minus_fct, id, Rdiv. ring.
Qed.

(** The chain rule for one stage: the factor [1 / (t1 - t0)] comes out
    of the normalisation of the time. *)
Lemma dlim_row_tau (self : _Dopri8Interpolation) row x :
  length row = 6%nat ->
  derivable_pt_lim (fun s => polyval row (tau self s) * tau self s) x
    (polyval (zip_with Rmult row [6; 5; 4; 3; 2; 1])
       ((x - t0 self) * (1 / (t1 self - t0 self)))
     * (1 / (t1 self - t0 self))).
Proof.
  intro Hlen.
  apply (derivable_pt_lim_ext (comp (fun u => polyval row u * u) (tau self)));
    [reflexivity|].
  apply derivable_pt_lim_comp; [apply dlim_tau|].
  replace ((x - t0 self) * (1 / (t1 self - t0 self))) with (tau self x)
    by (unfold tau, Rdiv; ring).
  now apply dlim_row6.
Qed.

(** A sum of differentiable coefficients against a fixed column. *)
Lemma dlim_dot (g : list R -> R -> R) (g' : list R -> R) x rows :
  Forall (fun row => derivable_pt_lim (g row) x (g' row)) rows ->
  forall col,
    derivable_pt_lim (fun s => dot (map (fun row => g row s) rows) col) x
      (dot (map g' rows) col).
Proof.
  induction 1 as [|row rows Hrow _ IH]; intros [|b col];
    try (apply (derivable_pt_lim_const 0 x)).
  simpl map. rewrite dot_cons.
  apply (derivable_pt_lim_ext
           (plus_fct (mult_fct (g row) (fct_cte b))
              (fun s => dot (map (fun r => g r s) rows) col)));
    [reflexivity|].
  apply derivable_pt_lim_plus; [|apply IH].
  eapply dlim_eq; [|apply derivable_pt_lim_mult;
                     [exact Hrow|apply derivable_pt_lim_const]].
  unfold fct_cte. ring.
Qed.

Lemma asarray1_zip_with_mult u v :
  asarray1 (zip_with Qmult u v) = zip_with Rmult (asarray1 u) (asarray1 v).
Proof.
  revert v; induction u as [|a u IH]; intros [|b v]; simpl; try reflexivity.
  now rewrite Q2R_mult, IH.
Qed.

(** [diff_coeffs], as real numbers, is [eval_coeffs * [6, 5, 4, 3, 2, 1]]
    row by row. *)
Lemma asarray_diff_coeffs :
  asarray diff_coeffs =
  map (fun row => zip_with Rmult row [6; 5; 4; 3; 2; 1]) (asarray eval_coeffs).
Proof.
  unfold diff_coeffs, asarray. rewrite !map_map. apply map_ext. intro row.
  rewrite asarray1_zip_with_mult. f_equal.
  unfold asarray1, Q2R. simpl. repeat (f_equal; try lra).
Qed.

Lemma eval_coeffs_rows : Forall (fun row => length row = 6%nat) (asarray eval_coeffs).
Proof. repeat constructor. Qed.

(** C2: on an interpolation of the declared shapes with [t1 <> t0],
    [derivative(t)] is, entry by entry, the derivative with respect to
    the query time of the single-argument [evaluate] at [t]. *)
Theorem derivative_of_evaluate (self : _Dopri8Interpolation) (t : R) :
  shape_ok self = true ->
  t1 self <> t0 self ->
  exists (E : R -> list R) (D : list R),
    (forall s, evaluate self s None = Some (E s)) /\
    derivative self t = Some D /\
    length D = length (y0 self) /\
    forall j, (j < length (y0 self))%nat ->
      derivable_pt_lim (fun s => nth j (E s) 0) t (nth j D 0).
Proof.
  intros Hshape Hstep.
  exists (evaluate_value self), (derivative_value self t).
  split; [intro s; apply evaluate1_some; assumption|].
  split; [apply derivative_some; assumption|].
  split; [apply length_derivative_value|].
  intros j Hj.
  set (rt := 1 / (t1 self - t0 self)).
  set (g := fun (row : list R) (s : R) => polyval row (tau self s) * tau self s).
  set (g' := fun row : list R =>
               polyval (zip_with Rmult row [6; 5; 4; 3; 2; 1])
                 ((t - t0 self) * rt) * rt).
  apply (derivable_pt_lim_ext
           (plus_fct (fct_cte (nth j (y0 self) 0))
              (fun s => dot (map (fun row => g row s) (asarray eval_coeffs))
                            (column j (k self))))).
  - intro s. rewrite nth_evaluate_value by assumption.
    unfold plus_fct, fct_cte, eval_row_values, vscale, _vmap_polyval, g.
    now rewrite map_map.
  - apply (dlim_eq _ _ (0 + dot (map g' (asarray eval_coeffs))
                               (column j (k self)))).
    + rewrite nth_derivative_value by assumption. fold rt.
      rewrite dot_column_mscale, asarray_diff_coeffs.
      unfold vscale, _vmap_polyval, g'. rewrite !map_map. ring.
    + apply derivable_pt_lim_plus; [apply derivable_pt_lim_const|].
      apply dlim_dot.
      eapply Forall_impl; [|apply eval_coeffs_rows].
      intros row Hlen. unfold g, g', rt. now apply dlim_row_tau.
Qed.

End Derivative.

(** ** The last stage of the step *)

Section LastStage.

Import RungeKutta.

Local Open Scope R_scope.

Variable State : Type.
Variable sadd : State -> State -> State.
Variable smul : R -> State -> State.
Variable szero : State.
Variable f : R -> State -> State.

(** The two laws of the state space that the argument uses. *)
Hypothesis sadd_zero_r : forall s, sadd s szero = s.
Hypothesis smul_zero_l : forall s, smul 0 s = szero.

Lemma stages_snoc ta ya h a b l : forall ys ks,
  stages State sadd smul szero f ta ya h (l ++ [(a, b)]) ys ks =
  let st := stages State sadd smul szero f ta ya h l ys ks in
  let yi := combine_stages State sadd smul szero ya h b (snd st) in
  (fst st ++ [yi], snd st ++ [f (ta + a * h) yi]).
Proof.
  induction l as [|[a' b'] l IH]; intros ys ks; simpl.
  - reflexivity.
  - apply IH.
Qed.

Lemma stages_length ta ya h l : forall ys ks,
  length (snd (stages State sadd smul szero f ta ya h l ys ks)) =
  (length ks + length l)%nat.
Proof.
  induction l as [|[a b] l IH]; intros ys ks; simpl.
  - lia.
  - rewrite IH, length_app. simpl. lia.
Qed.

Lemma combine_snoc {A B} (u : list A) (v : list B) a b :
  length u = length v -> combine (u ++ [a]) (v ++ [b]) = combine u v ++ [(a, b)].
Proof.
  revert v; induction u as [|x u IH]; intros [|y v] H; simpl in *;
    try discriminate; [reflexivity|].
  f_equal. apply IH. congruence.
Qed.

(** A stage of weight zero does not move the combination. *)
Lemma lincomb_snoc_0 w ks x :
  length w = length ks ->
  lincomb State sadd smul szero (w ++ [0]) (ks ++ [x]) =
  lincomb State sadd smul szero w ks.
Proof.
  intro Hlen. unfold lincomb. rewrite combine_snoc by assumption.
  rewrite fold_left_app. simpl. now rewrite smul_zero_l, sadd_zero_r.
Qed.

Lemma alpha_split :
  alpha _dopri8_tableau = firstn 12 (alpha _dopri8_tableau) ++ [1%Q].
Proof. reflexivity. Qed.

Lemma beta_split :
  beta _dopri8_tableau =
  firstn 12 (beta _dopri8_tableau) ++ [firstn 13 (c_sol _dopri8_tableau)].
Proof. reflexivity. Qed.

Lemma c_sol_split :
  c_sol _dopri8_tableau = firstn 13 (c_sol _dopri8_tableau) ++ [0%Q].
Proof. reflexivity. Qed.

(** C9: the last row of [beta] is, entry by entry, the first 13 entries
    of [c_sol], the last entry of [c_sol] is zero and the last entry of
    [alpha] is 1; so, in a step of the stepper, the state at which the
    last stage derivative is sampled is the new state of the step, and
    that derivative is the vector field at the end of the step. *)
Theorem last_stage_is_solution :
  nth 12 (beta _dopri8_tableau) [] = firstn 13 (c_sol _dopri8_tableau) /\
  length (nth 12 (beta _dopri8_tableau) []) = 13%nat /\
  length (beta _dopri8_tableau) = 13%nat /\
  nth 13 (c_sol _dopri8_tableau) 1%Q = 0%Q /\
  last (alpha _dopri8_tableau) 0%Q = 1%Q /\
  forall ta ya h,
    let r := step State sadd smul szero f _dopri8_tableau ta ya h in
    last (stage_states State sadd smul szero f _dopri8_tableau ta ya h) ya =
      new_state State r /\
    last (stage_derivatives State r) szero = f (ta + h) (new_state State r).
Proof.
  repeat (split; [reflexivity|]).
  intros ta ya h r.
  unfold r, step, stage_states. cbv zeta.
  unfold new_state, stage_derivatives.
  rewrite alpha_split, beta_split, c_sol_split.
  set (b13 := firstn 13 (firstn 13 (c_sol _dopri8_tableau) ++ [0%Q])).
  replace (firstn 13 (c_sol _dopri8_tableau)) with b13 by reflexivity.
  assert (Hb13 : length (map Q2R b13) = 13%nat) by reflexivity.
  unfold asarray, asarray1. rewrite !map_app. cbn [map].
  rewrite combine_snoc by reflexivity.
  rewrite stages_snoc. cbv zeta. cbn [fst snd].
  set (st := stages State sadd smul szero f ta ya h _ [ya] [f ta ya]).
  assert (Hlen : length (snd st) = 13%nat).
  { unfold st. rewrite stages_length. reflexivity. }
  rewrite !last_last. rewrite RMicromega.Q2R_0, RMicromega.Q2R_1, Rmult_1_l.
  unfold combine_stages.
  rewrite lincomb_snoc_0 by (rewrite Hb13, Hlen; reflexivity).
  split; reflexivity.
Qed.

End LastStage.

(** ** The number of stages *)

Section StageCount.

Local Open Scope R_scope.

Lemma evaluate_rows (self : _Dopri8Interpolation) (t : R) (v : list R) :
  evaluate self t None = Some v -> length (k self) = 14%nat.
Proof.
  simpl. unfold evaluate1.
  destruct (fdiv (t - t0 self) (t1 self - t0 self)) as [x|]; [|discriminate].
  change (bind (Some ?a) ?g) with (g a). cbv beta zeta.
  destruct (matmul _ (k self)) as [w|] eqn:Hm; [|discriminate].
  intros _. apply matmul_rows in Hm. rewrite <- Hm. reflexivity.
Qed.

(** C6, amended: the tableau has 14 stages.  The solution and error
    weights have 14 entries, [alpha] and [beta] describe the 13 stages
    after the first, the dense-output tables have 14 rows, and
    [evaluate] has a value only for a stage array [k] of 14 rows.  The
    14th stage has solution weight 0. *)
Theorem dopri8_has_14_stages :
  stage_count _dopri8_tableau = 14%nat /\
  length (c_sol _dopri8_tableau) = 14%nat /\
  length (c_error _dopri8_tableau) = 14%nat /\
  length (alpha _dopri8_tableau) = 13%nat /\
  length (beta _dopri8_tableau) = 13%nat /\
  length eval_coeffs = 14%nat /\
  length diff_coeffs = 14%nat /\
  nth_error (c_sol _dopri8_tableau) 13 = Some 0%Q /\
  forall (self : _Dopri8Interpolation) (t : R) (v : list R),
    evaluate self t None = Some v -> length (k self) = 14%nat.
Proof. repeat (split; [reflexivity|]). exact evaluate_rows. Qed.

End StageCount.

(** ** Instances *)

Section Instances.

Import RungeKutta.

Local Open Scope R_scope.

Lemma unit_slope_step : t1 unit_slope <> t0 unit_slope.
Proof. simpl. lra. Defined.

Lemma derivative_of_evaluate_witness :
  shape_ok unit_slope = true /\
  t1 unit_slope <> t0 unit_slope /\
  exists (E : R -> list R) (D : list R),
    (forall s, evaluate unit_slope s None = Some (E s)) /\
    derivative unit_slope 1 = Some D /\
    length D = length (y0 unit_slope) /\
    forall j, (j < length (y0 unit_slope))%nat ->
      derivable_pt_lim (fun s => nth j (E s) 0) 1 (nth j D 0).
Proof.
  split; [reflexivity|]. split; [exact unit_slope_step|].
  exact (derivative_of_evaluate unit_slope 1 eq_refl unit_slope_step).
Defined.

Lemma evaluate_at_t0_witness :
  shape_ok unit_slope = true /\
  t1 unit_slope <> t0 unit_slope /\
  evaluate unit_slope (t0 unit_slope) None = Some (y0 unit_slope).
Proof.
  split; [reflexivity|]. split; [exact unit_slope_step|].
  exact (evaluate_at_t0 unit_slope eq_refl unit_slope_step).
Defined.

Lemma evaluate_increment_witness :
  shape_ok unit_slope = true /\
  t1 unit_slope <> t0 unit_slope /\
  exists va vb,
    evaluate unit_slope (1 / 2) None = Some va /\
    evaluate unit_slope (3 / 2) None = Some vb /\
    length va = length vb /\
    evaluate unit_slope (1 / 2) (Some (3 / 2)) = Some (zip_with Rminus vb va).
Proof.
  split; [reflexivity|]. split; [exact unit_slope_step|].
  exact (evaluate_increment unit_slope (1 / 2) (3 / 2) eq_refl unit_slope_step).
Defined.

(** A query time outside the step interval [[0, 2]]. *)
Lemma evaluate_derivative_total_witness :
  shape_ok unit_slope = true /\
  t1 unit_slope <> t0 unit_slope /\
  exists v d,
    evaluate unit_slope 5 None = Some v /\
    derivative unit_slope 5 = Some d /\
    length v = length (y0 unit_slope) /\
    length d = length (y0 unit_slope) /\
    forall j, (j < length (y0 unit_slope))%nat ->
      nth j v 0 = dense_value unit_slope (tau unit_slope 5) j.
Proof.
  split; [reflexivity|]. split; [exact unit_slope_step|].
  exact (evaluate_derivative_total unit_slope 5 eq_refl unit_slope_step).
Defined.

(** One step of [dy/dt = -y] from [y(0) = 1] with [dt = 0.1], on the
    real line as state space. *)
Lemma last_stage_is_solution_witness :
  (forall s : R, s + 0 = s) /\
  (forall s : R, 0 * s = 0) /\
  let r := step R Rplus Rmult 0 decay _dopri8_tableau 0 1 0.1 in
  last (stage_states R Rplus Rmult 0 decay _dopri8_tableau 0 1 0.1) 1 =
    new_state R r /\
  last (stage_derivatives R r) 0 = decay (0 + 0.1) (new_state R r).
Proof.
  split; [exact Rplus_0_r|]. split; [exact Rmult_0_l|].
  exact (proj2 (proj2 (proj2 (proj2 (proj2
           (last_stage_is_solution R Rplus Rmult 0 decay
              Rplus_0_r Rmult_0_l))))) 0 1 0.1).
Defined.

(** The agreement at the end of the step is not exact: already for the
    first stage, the polynomial at normalised time 1 is not the solution
    weight. *)
Lemma eval_rows_at_1_not_exact :
  ~ (Qpolyval (hd [] eval_coeffs) 1 * 1 == hd 0%Q (c_sol _dopri8_tableau))%Q.
Proof. intro H. vm_compute in H. discriminate H. Qed.

End Instances.

(** * Further properties *)

Import Dopri8 MoreSamples.

(** ** Order conditions of the tableau *)

Section OrderConditions.

Local Open Scope Q_scope.

Lemma within_Qabs tol q : within tol q = true -> Qabs q <= tol.
Proof.
  unfold within. intro H. apply andb_prop in H as [Hlo Hhi].
  apply Qle_bool_imp_le in Hlo, Hhi.
  apply Qabs_Qle_condition. split; assumption.
Qed.

Lemma forallb_range (p : nat -> bool) a n q :
  forallb p (seq a n) = true -> (a <= q < a + n)%nat -> p q = true.
Proof.
  intros Hall Hq. rewrite forallb_forall in Hall. apply Hall.
  apply in_seq. exact Hq.
Qed.

Lemma momentb_spec tol w c target n :
  momentb tol w c target n = true -> Qabs (moment w c n - target) <= tol.
Proof. unfold momentb. apply within_Qabs. Qed.


(** The solution weights integrate the powers of the time up to the
    order of the method: [sum_i c_sol[i] * c_i^(q-1)] is [1 / q] up to
    1e-17 for every [q] from 1 to [order]. *)
Theorem c_sol_quadrature (q : nat) :
  (1 <= q <= order)%nat ->
  Qabs (moment (c_sol tableau) (nodes tableau) (q - 1) - Qrecip q) <= 1e-17.
Proof.
  intro Hq. apply momentb_spec.
  apply (forallb_range
           (fun q => momentb 1e-17 (c_sol tableau) (nodes tableau)
                       (Qrecip q) (q - 1)) 1 8 q);
    [vm_compute; reflexivity|unfold order in Hq; lia].
Qed.


Lemma rows_triangular (l : list (list Q)) : forall a,
  forallb (fun ir => Nat.eqb (length (snd ir)) (S (fst ir)))
          (combine (seq a (length l)) l) = true ->
  forall i row, nth_error l i = Some row -> length row = S (a + i).
Proof.
  induction l as [|r l IH]; intros a Hall i row Hi.
  - destruct i; discriminate Hi.
  - simpl in Hall. apply andb_prop in Hall as [Hr Hrest].
    destruct i as [|i]; simpl in Hi.
    + injection Hi as <-. apply Nat.eqb_eq in Hr. rewrite Hr. f_equal. lia.
    + rewrite (IH (S a) Hrest i row Hi). f_equal. lia.
Qed.

Lemma fraction_ok_spec a : fraction_ok a = true -> 0 < a /\ a <= 1.
Proof.
  unfold fraction_ok. intro H. apply andb_prop in H as [Hlo Hhi]. split.
  - apply Qnot_le_lt. intro Hle. apply Qle_bool_iff in Hle.
    rewrite Hle in Hlo. discriminate Hlo.
  - now apply Qle_bool_imp_le.
Qed.

(** The tableau is that of an explicit method: [beta] is strictly lower
    triangular (row [i] weighs the [i + 1] stages before it), there is
    one row per later stage and one weight per stage, and every stage is
    sampled inside the step ([0 < alpha[i] <= 1]). *)
Theorem tableau_explicit :
  length (beta tableau) = length (alpha tableau) /\
  (forall i row, nth_error (beta tableau) i = Some row ->
     length row = S i) /\
  length (c_sol tableau) = S (length (alpha tableau)) /\
  length (c_error tableau) = S (length (alpha tableau)) /\
  Forall (fun a => 0 < a /\ a <= 1) (alpha tableau).
Proof.
  split; [reflexivity|]. split.
  - intros i row Hi.
    apply (rows_triangular (beta tableau) 0%nat); [reflexivity|exact Hi].
  - split; [reflexivity|]. split; [reflexivity|].
    apply Forall_forall. intros a Ha. apply fraction_ok_spec.
    assert (Hall : forallb fraction_ok (alpha tableau) = true)
      by (vm_compute; reflexivity).
    rewrite forallb_forall in Hall. now apply Hall.
Qed.

End OrderConditions.

(** ** The derivative at the two ends of the step *)

Section DerivativeEnds.

Local Open Scope R_scope.

Lemma nth_nil_0 j : nth j (@nil R) 0 = 0.
Proof. destruct j; reflexivity. Qed.

Lemma nth_column i j m : nth i (column j m) 0 = nth j (nth i m []) 0.
Proof.
  unfold column. revert i; induction m as [|row m IH]; intros [|i]; simpl;
    try (symmetry; apply nth_nil_0); auto.
Qed.

Lemma dot_nil_r u : dot u [] = 0.
Proof. destruct u; reflexivity. Qed.

Lemma dot_vscale_l u r col : dot (vscale u r) col = r * dot u col.
Proof.
  unfold vscale. revert col; induction u as [|a u IH]; intros [|b col];
    try (unfold dot; simpl; ring).
  simpl map. rewrite !dot_cons, IH. ring.
Qed.

(** Coefficients that are all zero select nothing. *)
Lemma dot_zero_coeffs (g : nat -> R) l :
  (forall m, In m l -> g m = 0) -> forall col, dot (map g l) col = 0.
Proof.
  induction l as [|a l IH]; intros Hg [|b col]; try reflexivity.
  simpl map. rewrite dot_cons, (Hg a (or_introl eq_refl)), IH; [ring|].
  intros m Hm. apply Hg. now right.
Qed.

(** The coefficients of a unit vector select one entry of the column. *)
Lemma dot_unit i n : forall a col,
  (a <= i < a + n)%nat ->
  dot (map (fun m => if Nat.eqb m i then 1 else 0) (seq a n)) col =
  nth (i - a) col 0.
Proof.
  induction n as [|n IH]; intros a col Hi; [lia|].
  destruct col as [|b col].
  - rewrite dot_nil_r. symmetry. apply nth_nil_0.
  - simpl seq. simpl map. rewrite dot_cons.
    destruct (Nat.eqb a i) eqn:E.
    + apply Nat.eqb_eq in E. subst a. rewrite Nat.sub_diag. simpl nth.
      rewrite dot_zero_coeffs; [ring|].
      intros m Hm. apply in_seq in Hm.
      destruct (Nat.eqb m i) eqn:E'; [|reflexivity].
      apply Nat.eqb_eq in E'. lia.
    + apply Nat.eqb_neq in E. rewrite (IH (S a) col) by lia.
      replace (i - a)%nat with (S (i - S a)) by lia. simpl nth. ring.
Qed.

Lemma asarray1_unit_vector i n :
  asarray1 (unit_vector i n) =
  map (fun m => if Nat.eqb m i then 1 else 0) (seq 0 n).
Proof.
  unfold asarray1, unit_vector. rewrite map_map. apply map_ext. intro m.
  destruct (Nat.eqb m i);
    [apply RMicromega.Q2R_1|apply RMicromega.Q2R_0].
Qed.

Lemma Forall2_map_eq {A B C} (g : A -> C) (h : B -> C) l1 l2 :
  Forall2 (fun a b => g a = h b) l1 l2 -> map g l1 = map h l2.
Proof. induction 1; simpl; congruence. Qed.

Lemma map_nth_seq_id (l : list R) :
  map (fun j => nth j l 0) (seq 0 (length l)) = l.
Proof.
  induction l as [|a l IH]; [reflexivity|].
  simpl. f_equal. rewrite <- seq_shift, map_map. exact IH.
Qed.

(** At normalised time 0 the derivative polynomial of the first stage
    is 1 and that of every other stage is 0, exactly. *)
Lemma diff_rows_at_0 :
  _vmap_polyval (asarray diff_coeffs) 0 = asarray1 (unit_vector 0 14).
Proof.
  unfold _vmap_polyval, asarray, asarray1. rewrite map_map.
  apply Forall2_map_eq.
  apply (Forall2_of_forallb
           (fun row e => Qeq_bool (Qpolyval row 0) e)).
  - intros row e H. apply Qeq_bool_eq in H.
    rewrite <- RMicromega.Q2R_0. fold (asarray1 row).
    rewrite polyval_Q2R. now apply Qeq_eqR.
  - reflexivity.
  - vm_compute. reflexivity.
Qed.

(** At normalised time 1 the derivative polynomial of the last stage is
    1 and that of every other stage is 0, up to 3e-11. *)
Lemma diff_rows_at_1 :
  Forall2 (fun d e => Rabs (d - e) <= 3e-11)
    (_vmap_polyval (asarray diff_coeffs) 1) (asarray1 (unit_vector 13 14)).
Proof.
  unfold _vmap_polyval, asarray. rewrite map_map. unfold asarray1 at 2.
  apply Forall2_map.
  apply (Forall2_of_forallb
           (fun row e => within 3e-11 (Qpolyval row 1 - e)%Q)).
  - intros row e H. apply within_Rabs in H.
    rewrite Q2R_minus, <- polyval_Q2R, RMicromega.Q2R_1 in H. exact H.
  - reflexivity.
  - vm_compute. reflexivity.
Qed.

Lemma first_row_length (self : _Dopri8Interpolation) :
  shape_ok self = true -> length (nth 0 (k self) []) = length (y0 self).
Proof.
  intro Hshape. rewrite <- (shape_ncols self Hshape).
  pose proof (shape_rows self Hshape) as Hr.
  destruct (k self); [discriminate Hr|reflexivity].
Qed.

Lemma nth_mscale i m r : nth i (mscale m r) [] = vscale (nth i m []) r.
Proof.
  unfold mscale. revert i; induction m as [|row m IH]; intros [|i]; simpl;
    try reflexivity. apply IH.
Qed.

(** X1: at the start of the step the derivative of the interpolation is
    the first row of the stage array divided by the length of the step,
    exactly. *)
Theorem derivative_at_t0 (self : _Dopri8Interpolation) :
  shape_ok self = true ->
  t1 self <> t0 self ->
  derivative self (t0 self) =
  Some (vscale (nth 0 (k self) []) (1 / (t1 self - t0 self))).
Proof.
  intros Hshape Hstep. rewrite derivative_some by assumption. f_equal.
  unfold derivative_value. cbv zeta.
  rewrite Rminus_diag, Rmult_0_l, diff_rows_at_0, asarray1_unit_vector.
  set (rt := 1 / (t1 self - t0 self)).
  rewrite <- (map_nth_seq_id (vscale (nth 0 (k self) []) rt)).
  unfold vscale at 2. rewrite length_map, (first_row_length self Hshape).
  apply map_ext. intro j.
  rewrite (dot_unit 0 14 0) by lia.
  now rewrite nth_column, nth_mscale.
Qed.

Lemma diff_rows_at_1_exact :
  Forall2 (fun row e => (Qabs (Qpolyval row 1 - e) <= 3e-11)%Q)
    diff_coeffs (unit_vector 13 14).
Proof.
  apply (Forall2_of_forallb
           (fun row e => within 3e-11 (Qpolyval row 1 - e)%Q)).
  - intros row e H. now apply within_Qabs.
  - reflexivity.
  - vm_compute. reflexivity.
Qed.

(** X2: a property of the table [diff_coeffs] and what it gives in
    exact arithmetic.  In exact rational arithmetic, the derivative
    polynomial at normalised time 1 is within 3e-11 of 1 for the last
    stage and of 0 for every other stage.  So, in exact real
    arithmetic, at the end of the step the derivative of the
    interpolation is the last row of the stage array divided by the
    length of the step, up to 3e-11 times the summed magnitudes of the
    stage entries divided by the length of the step.  The rounding of a
    floating-point run comes on top and is not bounded here. *)
Theorem derivative_at_t1 :
  Forall2 (fun row e => (Qabs (Qpolyval row 1 - e) <= 3e-11)%Q)
    diff_coeffs (unit_vector 13 14) /\
  forall self : _Dopri8Interpolation,
    shape_ok self = true ->
    t1 self <> t0 self ->
    exists d,
      derivative self (t1 self) = Some d /\
      length d = length (y0 self) /\
      forall j, (j < length (y0 self))%nat ->
        Rabs (nth j d 0 - nth j (nth 13 (k self) []) 0 / (t1 self - t0 self))
        <= 3e-11 * column_size j (k self) / Rabs (t1 self - t0 self).
Proof.
  split; [exact diff_rows_at_1_exact|].
  intros self Hshape Hstep.
  assert (Hnz : t1 self - t0 self <> 0) by (intro E; apply Hstep; lra).
  exists (derivative_value self (t1 self)).
  split; [apply derivative_some; assumption|].
  split; [apply length_derivative_value|].
  intros j Hj. rewrite nth_derivative_value by assumption.
  set (rt := 1 / (t1 self - t0 self)).
  replace ((t1 self - t0 self) * rt) with 1 by (unfold rt; now field).
  rewrite dot_column_mscale, dot_vscale_l.
  replace (nth j (nth 13 (k self) []) 0)
    with (dot (asarray1 (unit_vector 13 14)) (column j (k self))).
  2:{ rewrite asarray1_unit_vector, (dot_unit 13 14 0) by lia.
      now rewrite nth_column. }
  match goal with
  | |- Rabs (rt * ?a - ?b / ?h) <= _ =>
      replace (rt * a - b / h) with (rt * (a - b)) by (unfold rt; now field)
  end.
  rewrite Rabs_mult.
  replace (Rabs rt) with (/ Rabs (t1 self - t0 self)).
  2:{ unfold rt, Rdiv. rewrite Rmult_1_l. symmetry. now apply Rabs_inv. }
  pose proof (dot_close 3e-11 _ _ ltac:(lra) diff_rows_at_1 (column j (k self)))
    as Hclose.
  fold (column_size j (k self)) in Hclose.
  assert (Hpos : 0 < / Rabs (t1 self - t0 self))
    by (apply Rinv_0_lt_compat, Rabs_pos_lt; exact Hnz).
  unfold Rdiv. rewrite (Rmult_comm _ (/ Rabs (t1 self - t0 self))).
  apply Rmult_le_compat_l; [lra|exact Hclose].
Qed.

End DerivativeEnds.

(** ** Increments of the interpolation *)

Section Increments.

Local Open Scope R_scope.

Lemma evaluate2_some (self : _Dopri8Interpolation) (a b : R) :
  shape_ok self = true ->
  t1 self <> t0 self ->
  evaluate self a (Some b) =
  Some (zip_with Rminus (evaluate_value self b) (evaluate_value self a)).
Proof.
  intros Hshape Hstep. simpl. rewrite !evaluate1_some by assumption.
  change (bind (Some ?x) ?g) with (g x). cbv beta.
  unfold sub_arr. apply broadcast_same.
  now rewrite !length_evaluate_value.
Qed.

Lemma zip_with_minus_self v : zip_with Rminus v v = repeat 0 (length v).
Proof.
  induction v as [|a v IH]; simpl; [reflexivity|].
  rewrite IH. f_equal. ring.
Qed.

Lemma zip_with_telescope va : forall vb vc,
  length vb = length va -> length vc = length va ->
  zip_with Rminus vc va =
  zip_with Rplus (zip_with Rminus vb va) (zip_with Rminus vc vb).
Proof.
  induction va as [|a va IH]; intros [|b vb] [|c vc] Hb Hc; simpl in *;
    try discriminate; try reflexivity.
  rewrite <- IH by congruence. f_equal. ring.
Qed.

Lemma zip_with_cancel y : forall A B,
  length A = length y -> length B = length y ->
  zip_with Rminus (zip_with Rplus y B) (zip_with Rplus y A) =
  zip_with Rminus B A.
Proof.
  induction y as [|c y IH]; intros [|a A] [|b B] HA HB; simpl in *;
    try discriminate; try reflexivity.
  rewrite IH by congruence. f_equal. ring.
Qed.

(** X3: over an empty interval the increment is the zero vector of the
    size of the state. *)
Theorem evaluate_increment_empty (self : _Dopri8Interpolation) (a : R) :
  shape_ok self = true ->
  t1 self <> t0 self ->
  evaluate self a (Some a) = Some (repeat 0 (length (y0 self))).
Proof.
  intros Hshape Hstep. rewrite evaluate2_some by assumption.
  rewrite zip_with_minus_self. now rewrite length_evaluate_value.
Qed.

(** X4: increments add up: the increment from [a] to [c] is the sum of
    the increments from [a] to [b] and from [b] to [c], for any three
    times in any order. *)
Theorem evaluate_increment_additive (self : _Dopri8Interpolation) (a b c : R) :
  shape_ok self = true ->
  t1 self <> t0 self ->
  exists d1 d2,
    evaluate self a (Some b) = Some d1 /\
    evaluate self b (Some c) = Some d2 /\
    length d1 = length d2 /\
    evaluate self a (Some c) = Some (zip_with Rplus d1 d2).
Proof.
  intros Hshape Hstep.
  exists (zip_with Rminus (evaluate_value self b) (evaluate_value self a)),
         (zip_with Rminus (evaluate_value self c) (evaluate_value self b)).
  rewrite !evaluate2_some by assumption.
  split; [reflexivity|]. split; [reflexivity|]. split.
  - rewrite !length_zip_with; now rewrite !length_evaluate_value.
  - f_equal. apply zip_with_telescope; now rewrite !length_evaluate_value.
Qed.

(** X5: the increment between two times does not depend on the state
    [y0] at the start of the step: two interpolations with the same
    times and stage array give the same increments. *)
Theorem evaluate_increment_ignores_y0
  (a0 a1 : R) (u0 u0' u1 u1' : list R) (m : list (list R)) (a b : R) :
  shape_ok (mk_Dopri8Interpolation a0 a1 u0 u1 m) = true ->
  shape_ok (mk_Dopri8Interpolation a0 a1 u0' u1' m) = true ->
  a1 <> a0 ->
  evaluate (mk_Dopri8Interpolation a0 a1 u0 u1 m) a (Some b) =
  evaluate (mk_Dopri8Interpolation a0 a1 u0' u1' m) a (Some b).
Proof.
  intros H H' Hstep.
  rewrite !evaluate2_some by assumption. f_equal.
  pose proof (shape_ncols _ H) as Hn. pose proof (shape_ncols _ H') as Hn'.
  simpl in Hn, Hn'.
  unfold evaluate_value, tau. simpl t0. simpl t1. simpl y0. simpl k.
  rewrite !zip_with_cancel by now rewrite length_map, length_seq.
  now rewrite <- Hn, <- Hn'.
Qed.

End Increments.

(** ** Stages without weight *)

Section UnusedStages.

Local Open Scope R_scope.

Lemma dot_agree u : forall c c',
  (forall i, nth i u 0 = 0 \/ nth i c 0 = nth i c' 0) ->
  length c = length c' ->
  dot u c = dot u c'.
Proof.
  induction u as [|a u IH]; intros [|b c] [|b' c'] H Hlen; simpl in Hlen;
    try discriminate; try reflexivity.
  rewrite !dot_cons. rewrite (IH c c').
  - destruct (H 0%nat) as [E|E]; simpl in E; rewrite E; ring.
  - intro i. apply (H (S i)).
  - congruence.
Qed.

(** The polynomials of stages 2 to 5 are zero. *)
Lemma eval_rows_zero x i :
  (1 <= i <= 4)%nat -> nth i (eval_row_values x) 0 = 0.
Proof.
  intro Hi. unfold eval_row_values. rewrite vscale_vmap_polyval.
  unfold asarray, eval_coeffs.
  destruct i as [|[|[|[|[|i]]]]]; try lia;
    cbn [map nth]; unfold asarray1; cbn [map power_poly length];
    rewrite RMicromega.Q2R_0; ring.
Qed.

Lemma diff_rows_zero x i :
  (1 <= i <= 4)%nat -> nth i (_vmap_polyval (asarray diff_coeffs) x) 0 = 0.
Proof.
  intro Hi. rewrite asarray_diff_coeffs.
  unfold _vmap_polyval, asarray, eval_coeffs.
  destruct i as [|[|[|[|[|i]]]]]; try lia;
    cbn [map nth]; unfold asarray1, polyval; cbn [map zip_with fold_left];
    rewrite RMicromega.Q2R_0; ring.
Qed.

(** X6: the rows of the stage array for stages 2 to 5 are not used: two
    interpolations whose stage arrays agree on the first row and from
    the sixth row on return the same values and derivatives. *)
Theorem stages_2_to_5_unused (self self' : _Dopri8Interpolation)
  (tq : R) (tq1 : option R) :
  t0 self' = t0 self -> t1 self' = t1 self -> y0 self' = y0 self ->
  shape_ok self = true -> shape_ok self' = true ->
  (forall i, (i = 0 \/ 5 <= i)%nat -> nth i (k self') [] = nth i (k self) []) ->
  t1 self <> t0 self ->
  evaluate self' tq tq1 = evaluate self tq tq1 /\
  derivative self' tq = derivative self tq.
Proof.
  intros Ht0 Ht1 Hy0 Hshape Hshape' Hk Hstep.
  assert (Hstep' : t1 self' <> t0 self') by (rewrite Ht0, Ht1; exact Hstep).
  assert (Hlen : forall j, length (column j (k self')) = length (column j (k self))).
  { intro j. unfold column. rewrite !length_map.
    now rewrite (shape_rows self Hshape), (shape_rows self' Hshape'). }
  assert (Hcol : forall i j, (i = 0 \/ 5 <= i)%nat ->
            nth i (column j (k self')) 0 = nth i (column j (k self)) 0).
  { intros i j Hi. now rewrite !nth_column, Hk. }
  assert (He : forall t, evaluate_value self' t = evaluate_value self t).
  { intro t. unfold evaluate_value, tau. rewrite Ht0, Ht1, Hy0. f_equal.
    apply map_ext. intro j. apply dot_agree; [|apply Hlen].
    intro i. destruct (Nat.eq_dec i 0) as [E|E]; [right; apply Hcol; lia|].
    destruct (le_lt_dec 5 i); [right; apply Hcol; lia|].
    left. apply eval_rows_zero. lia. }
  split.
  - destruct tq1 as [tq1|].
    + rewrite !evaluate2_some by assumption. now rewrite !He.
    + simpl. rewrite !evaluate1_some by assumption. now rewrite He.
  - rewrite !derivative_some by assumption. f_equal.
    unfold derivative_value. cbv zeta. rewrite Ht0, Ht1, Hy0.
    apply map_ext. intro j. apply dot_agree.
    + intro i. destruct (Nat.eq_dec i 0) as [E|E].
      * right. rewrite !nth_column, !nth_mscale, Hk by lia. reflexivity.
      * destruct (le_lt_dec 5 i).
        -- right. rewrite !nth_column, !nth_mscale, Hk by lia. reflexivity.
        -- left. apply diff_rows_zero. lia.
    + unfold column, mscale. rewrite !length_map.
      now rewrite (shape_rows self Hshape), (shape_rows self' Hshape').
Qed.

End UnusedStages.

(** ** A change of the time variable *)

Section Retime.

Local Open Scope R_scope.

Lemma length_mscale m r : length (mscale m r) = length m.
Proof. unfold mscale. apply length_map. Qed.




End Retime.

(** ** Shapes *)

Section Shapes.

Local Open Scope R_scope.

Lemma length_broadcast op u v w :
  broadcast op u v = Some w ->
  length w = broadcast_size (length u) (length v).
Proof.
  unfold broadcast, broadcast_size.
  destruct (Nat.eqb (length u) (length v)) eqn:E.
  - intro H. injection H as <-. apply Nat.eqb_eq in E.
    now apply length_zip_with.
  - destruct (Nat.eqb (length u) 1).
    + intro H. injection H as <-. apply length_map.
    + destruct (Nat.eqb (length v) 1); [|discriminate].
      intro H. injection H as <-. apply length_map.
Qed.

Lemma broadcast_defined op u v :
  broadcast op u v <> None <-> broadcastable (length u) (length v) = true.
Proof.
  unfold broadcast, broadcastable.
  destruct (Nat.eqb (length u) (length v)); simpl; [split; [reflexivity|discriminate]|].
  destruct (Nat.eqb (length u) 1); simpl; [split; [reflexivity|discriminate]|].
  destruct (Nat.eqb (length v) 1); simpl; [split; [reflexivity|discriminate]|].
  split; [intro H; now contradiction H|discriminate].
Qed.

(** X8: which shapes are accepted.  With [t1 <> t0], the
    single-argument [evaluate] has a value exactly when the stage array
    has 14 rows and the size of [y0] broadcasts against the number of
    columns of [k] (equal sizes, or one of them 1), and the value has
    the broadcast size; [derivative] has a value exactly when [k] has 14
    rows, and the value has as many entries as [k] has columns,
    whatever the size of [y0]. *)
Theorem accepted_shapes (self : _Dopri8Interpolation) (t : R) :
  t1 self <> t0 self ->
  (evaluate self t None <> None <->
     length (k self) = 14%nat /\
     broadcastable (length (y0 self)) (ncols (k self)) = true) /\
  (forall v, evaluate self t None = Some v ->
     length v = broadcast_size (length (y0 self)) (ncols (k self))) /\
  (derivative self t <> None <-> length (k self) = 14%nat) /\
  (forall d, derivative self t = Some d -> length d = ncols (k self)).
Proof.
  intro Hstep.
  assert (Hnz : t1 self - t0 self <> 0) by (intro E; apply Hstep; lra).
  simpl evaluate. unfold evaluate1, derivative.
  rewrite !(fdiv_some _ _ Hnz).
  change (bind (Some ?x) ?g) with (g x). cbv beta zeta.
  change (vscale (_vmap_polyval (asarray eval_coeffs) ?x) ?x)
    with (eval_row_values x).
  unfold matmul. rewrite length_mscale, ncols_mscale.
  rewrite length_eval_row_values.
  change (length (_vmap_polyval (asarray diff_coeffs) ?x)) with 14%nat.
  destruct (Nat.eqb 14 (length (k self))) eqn:E.
  - apply Nat.eqb_eq in E. symmetry in E.
    change (bind (Some ?x) ?g) with (g x). cbv beta. unfold add_arr.
    split.
    { split.
      - intro H. split; [exact E|]. apply broadcast_defined in H.
        now rewrite length_map, length_seq in H.
      - intros [_ H]. apply broadcast_defined.
        now rewrite length_map, length_seq. }
    split.
    { intros v H. apply length_broadcast in H.
      now rewrite length_map, length_seq in H. }
    split.
    { split; [intros _; exact E|intros _; discriminate]. }
    intros d H. injection H as <-. now rewrite length_map, length_seq.
  - apply Nat.eqb_neq in E. simpl bind.
    split.
    { split.
      - intro H. now contradiction H.
      - intros [H _]. congruence. }
    split; [intros v H; discriminate H|].
    split.
    { split; [intro H; now contradiction H|intro H; congruence]. }
    intros d H. discriminate H.
Qed.

End Shapes.

(** ** The dense output on vector fields that are powers of the time *)

Section DenseQuadrature.

Local Open Scope R_scope.

Lemma Q2R_Qpown c n : Q2R (Qpown c n) = Q2R c ^ n.
Proof.
  induction n as [|n IH]; simpl.
  - apply RMicromega.Q2R_1.
  - now rewrite Q2R_mult, IH.
Qed.

Lemma power_poly_plus r1 : forall r2 x,
  length r1 = length r2 ->
  power_poly (zip_with Rplus r1 r2) x = power_poly r1 x + power_poly r2 x.
Proof.
  induction r1 as [|a r1 IH]; intros [|b r2] x Hlen; simpl in Hlen;
    try discriminate; [simpl; ring|].
  injection Hlen as Hlen.
  cbn [zip_with power_poly length]. rewrite IH by assumption.
  rewrite length_zip_with by assumption. rewrite <- Hlen. ring.
Qed.

Lemma power_poly_scale w r x :
  power_poly (map (Rmult w) r) x = w * power_poly r x.
Proof.
  induction r as [|a r IH]; [simpl; ring|].
  cbn [map power_poly length]. rewrite IH, length_map. ring.
Qed.

Lemma asarray1_zip_with_plus u v :
  asarray1 (zip_with Qplus u v) = zip_with Rplus (asarray1 u) (asarray1 v).
Proof.
  revert v; induction u as [|a u IH]; intros [|b v]; simpl; try reflexivity.
  now rewrite Q2R_plus, IH.
Qed.

Lemma asarray1_map_mult w r :
  asarray1 (map (Qmult w) r) = map (Rmult (Q2R w)) (asarray1 r).
Proof.
  unfold asarray1. rewrite !map_map. apply map_ext. intro a.
  apply Q2R_mult.
Qed.

Lemma length_Qwsum rows : forall ws,
  Forall (fun row => length row = 6%nat) rows -> length (Qwsum ws rows) = 6%nat.
Proof.
  induction rows as [|row rows IH]; intros [|w ws] H; try reflexivity.
  inversion H as [|? ? Hrow Hrows]; subst.
  unfold Qwsum. cbn [combine fold_right fst snd]. fold (Qwsum ws rows).
  rewrite length_zip_with; rewrite length_map; [assumption|].
  now rewrite IH.
Qed.

(** Summing the stage polynomials against weights is the polynomial of
    the weighted sum of the rows. *)
Lemma dot_power_wsum x s rows : forall ws,
  Forall (fun row => length row = 6%nat) rows ->
  dot (map (fun row => power_poly (asarray1 row) x) rows)
      (map (fun w => s * Q2R w) ws) =
  s * power_poly (asarray1 (Qwsum ws rows)) x.
Proof.
  assert (Hz : power_poly (asarray1 (repeat 0%Q 6)) x = 0).
  { unfold asarray1. cbn [repeat map power_poly length].
    rewrite RMicromega.Q2R_0. ring. }
  induction rows as [|row rows IH]; intros [|w ws] H.
  - unfold Qwsum. cbn [combine fold_right]. rewrite Hz. unfold dot. simpl. ring.
  - unfold Qwsum. cbn [combine fold_right]. rewrite Hz. unfold dot. simpl. ring.
  - unfold Qwsum. cbn [combine fold_right]. rewrite Hz.
    cbn [map]. rewrite dot_nil_r. ring.
  - inversion H as [|? ? Hrow Hrows]; subst.
    cbn [map]. rewrite dot_cons, (IH ws Hrows).
    unfold Qwsum at 2. cbn [combine fold_right fst snd]. fold (Qwsum ws rows).
    rewrite asarray1_zip_with_plus, asarray1_map_mult.
    rewrite power_poly_plus, power_poly_scale; [ring|].
    rewrite length_map. unfold asarray1. rewrite !length_map.
    now rewrite (length_Qwsum rows ws Hrows).
Qed.

Lemma abs_powers_nonneg x n : 0 <= abs_powers x n.
Proof.
  induction n as [|n IH]; [simpl; lra|].
  cbn [abs_powers]. pose proof (pow_le (Rabs x) (S n) (Rabs_pos x)). lra.
Qed.

(** Rows that agree up to [tol] give polynomials that agree up to [tol]
    times [|x| + ... + |x|^n]. *)
Lemma power_poly_close tol r r' x :
  0 <= tol ->
  Forall2 (fun a b => Rabs (a - b) <= tol) r r' ->
  Rabs (power_poly r x - power_poly r' x) <= tol * abs_powers x (length r).
Proof.
  intros Htol H. induction H as [|a b r r' Hab Hrest IH].
  - simpl. rewrite Rminus_diag, Rabs_R0. lra.
  - cbn [power_poly length abs_powers].
    rewrite <- (Forall2_length Hrest).
    replace (a * x ^ S (length r) + power_poly r x
             - (b * x ^ S (length r) + power_poly r' x))
      with ((a - b) * x ^ S (length r) + (power_poly r x - power_poly r' x))
      by ring.
    eapply Rle_trans; [apply Rabs_triang|].
    rewrite Rabs_mult, <- RPow_abs.
    pose proof (pow_le (Rabs x) (S (length r)) (Rabs_pos x)) as Hp.
    assert (Rabs (a - b) * Rabs x ^ S (length r) <= tol * Rabs x ^ S (length r))
      by (apply Rmult_le_compat_r; assumption).
    lra.
Qed.

Lemma rows_within_spec tol r r' :
  rows_within tol r r' = true ->
  Forall2 (fun a b => Rabs (a - b) <= Q2R tol) (asarray1 r) (asarray1 r').
Proof.
  unfold rows_within. intro H. apply andb_prop in H as [Hlen Hall].
  apply Nat.eqb_eq in Hlen. unfold asarray1. apply Forall2_map.
  apply (Forall2_of_forallb (fun a b => within tol (a - b)%Q));
    [|exact Hlen|exact Hall].
  intros a b Hab. apply within_Rabs in Hab. now rewrite Q2R_minus in Hab.
Qed.

Lemma monomial_row_poly n x :
  (n <= 4)%nat ->
  power_poly (asarray1 (monomial_row (S n))) x = x ^ S n / INR (S n).
Proof.
  intro Hn.
  assert (H0 : Q2R 0 = 0) by apply RMicromega.Q2R_0.
  destruct n as [|[|[|[|[|n]]]]]; try lia;
    unfold monomial_row, asarray1, Qrecip;
    cbn [map Nat.eqb power_poly length];
    rewrite ?H0; unfold Q2R; simpl; field.
Qed.

Lemma dense_moment_checked n :
  (n <= 4)%nat -> dense_momentb 1e-15 n = true.
Proof.
  intro Hn.
  apply (forallb_range (fun n => dense_momentb 1e-15 n) 0 5 n);
    [vm_compute; reflexivity|lia].
Qed.

(** The check stops at degree 4: for the fifth power the combined
    polynomial is not [x^6 / 6] to that precision. *)
Lemma dense_moment_5_fails : dense_momentb 1e-15 5 = false.
Proof. vm_compute. reflexivity. Qed.

Lemma column_monomial_stages v n j :
  column j (monomial_stages v n) =
  map (fun w => nth j v 0 * Q2R w) (map (fun c => Qpown c n) (nodes tableau)).
Proof.
  unfold column, monomial_stages. rewrite !map_map. apply map_ext. intro c.
  now rewrite nth_vscale, Q2R_Qpown.
Qed.

Lemma rows_within_Qabs tol r r' :
  rows_within tol r r' = true ->
  Forall2 (fun a b => (Qabs (a - b) <= tol)%Q) r r'.
Proof.
  unfold rows_within. intro H. apply andb_prop in H as [Hlen Hall].
  apply Nat.eqb_eq in Hlen.
  apply (Forall2_of_forallb (fun a b => within tol (a - b)%Q));
    [|exact Hlen|exact Hall].
  intros a b Hab. now apply within_Qabs.
Qed.

(** X9: a property of the table [eval_coeffs] and what it gives in
    exact arithmetic.  In exact rational arithmetic, for [n <= 4] the
    stage polynomials weighed by the [n]-th powers of the time
    fractions of the stages, [sum_i c_i^n * poly_i], have the
    coefficients of [x^(n+1) / (n+1)] up to 1e-15.  So, in exact real
    arithmetic, for a stage array whose row [i] is [v * c_i^n] (the
    stage values of the vector field [v * x^n] of the normalised time
    [x]), entry [j] of [evaluate(t)] is [y0[j] + v[j] * x^(n+1) / (n+1)]
    up to [1e-15 * |v[j]| * (|x| + ... + |x|^6)], at every query time.
    The rounding of a floating-point run comes on top and is not
    bounded here. *)
Theorem dense_output_quadrature :
  (forall n, (n <= 4)%nat ->
     Forall2 (fun a b => (Qabs (a - b) <= 1e-15)%Q)
       (Qwsum (map (fun c => Qpown c n) (nodes tableau)) eval_coeffs)
       (monomial_row (S n))) /\
  forall (self : _Dopri8Interpolation) (v : list R) (n : nat) (t : R),
    (n <= 4)%nat ->
    shape_ok self = true ->
    t1 self <> t0 self ->
    k self = monomial_stages v n ->
    exists w,
      evaluate self t None = Some w /\
      length w = length (y0 self) /\
      forall j, (j < length (y0 self))%nat ->
        Rabs (nth j w 0
              - (nth j (y0 self) 0
                 + nth j v 0 * (tau self t ^ S n / INR (S n))))
        <= 1e-15 * Rabs (nth j v 0) * abs_powers (tau self t) 6.
Proof.
  split.
  { intros n Hn. apply rows_within_Qabs.
    exact (dense_moment_checked n Hn). }
  intros self v n t Hn Hshape Hstep Hk.
  exists (evaluate_value self t).
  split; [apply evaluate1_some; assumption|].
  split; [apply length_evaluate_value|].
  intros j Hj. rewrite nth_evaluate_value by assumption.
  unfold eval_row_values. rewrite vscale_vmap_polyval.
  unfold asarray. rewrite map_map.
  rewrite Hk, column_monomial_stages.
  assert (Hrows : Forall (fun row => length row = 6%nat) eval_coeffs)
    by (repeat constructor).
  rewrite (dot_power_wsum _ _ eval_coeffs _ Hrows).
  rewrite <- (monomial_row_poly n _ Hn).
  set (s := nth j v 0). set (x := tau self t).
  match goal with
  | |- Rabs (?y + s * ?a - (?y + s * ?b)) <= _ =>
      replace (y + s * a - (y + s * b)) with (s * (a - b)) by ring
  end.
  rewrite Rabs_mult.
  pose proof (dense_moment_checked n Hn) as Hc.
  unfold dense_momentb in Hc. apply rows_within_spec in Hc.
  apply (power_poly_close (Q2R 1e-15) _ _ x) in Hc;
    [|unfold Q2R; simpl; lra].
  unfold asarray1 in Hc at 3. rewrite length_map, (length_Qwsum _ _ Hrows) in Hc.
  change (Q2R 1e-15) with 1e-15 in Hc.
  pose proof (Rabs_pos s) as Hs.
  replace (1e-15 * Rabs s * abs_powers x 6)
    with (Rabs s * (1e-15 * abs_powers x 6)) by ring.
  apply Rmult_le_compat_l; assumption.
Qed.

End DenseQuadrature.

(** ** Instances of the further properties *)

Section MoreInstances.

Local Open Scope R_scope.

Lemma ramp_step : t1 ramp <> t0 ramp.
Proof. simpl. lra. Defined.

Lemma ramp_rows_agree (i : nat) :
  (i = 0 \/ 5 <= i)%nat -> nth i (k ramp_other) [] = nth i (k ramp) [].
Proof.
  intros [->|Hi]; [reflexivity|].
  do 5 (destruct i as [|i]; [lia|]).
  do 9 (destruct i as [|i]; [reflexivity|]).
  destruct i; reflexivity.
Defined.

Lemma derivative_at_t0_witness :
  shape_ok ramp = true /\
  t1 ramp <> t0 ramp /\
  derivative ramp (t0 ramp) =
  Some (vscale (nth 0 (k ramp) []) (1 / (t1 ramp - t0 ramp))).
Proof.
  split; [reflexivity|]. split; [exact ramp_step|].
  exact (derivative_at_t0 ramp eq_refl ramp_step).
Defined.

Lemma derivative_at_t1_witness :
  shape_ok ramp = true /\
  t1 ramp <> t0 ramp /\
  exists d,
    derivative ramp (t1 ramp) = Some d /\
    length d = length (y0 ramp) /\
    forall j, (j < length (y0 ramp))%nat ->
      Rabs (nth j d 0 - nth j (nth 13 (k ramp) []) 0 / (t1 ramp - t0 ramp))
      <= 3e-11 * column_size j (k ramp) / Rabs (t1 ramp - t0 ramp).
Proof.
  split; [reflexivity|]. split; [exact ramp_step|].
  exact (proj2 derivative_at_t1 ramp eq_refl ramp_step).
Defined.

Lemma evaluate_increment_empty_witness :
  shape_ok ramp = true /\
  t1 ramp <> t0 ramp /\
  evaluate ramp 2 (Some 2) = Some (repeat 0 (length (y0 ramp))).
Proof.
  split; [reflexivity|]. split; [exact ramp_step|].
  exact (evaluate_increment_empty ramp 2 eq_refl ramp_step).
Defined.

Lemma evaluate_increment_additive_witness :
  shape_ok ramp = true /\
  t1 ramp <> t0 ramp /\
  exists d1 d2,
    evaluate ramp 1 (Some 3) = Some d1 /\
    evaluate ramp 3 (Some 2) = Some d2 /\
    length d1 = length d2 /\
    evaluate ramp 1 (Some 2) = Some (zip_with Rplus d1 d2).
Proof.
  split; [reflexivity|]. split; [exact ramp_step|].
  exact (evaluate_increment_additive ramp 1 3 2 eq_refl ramp_step).
Defined.

Lemma evaluate_increment_ignores_y0_witness :
  shape_ok (mk_Dopri8Interpolation 1 3 [0; 5] [0; 0] ramp_stages) = true /\
  shape_ok (mk_Dopri8Interpolation 1 3 [8; 9] [1; 1] ramp_stages) = true /\
  3 <> 1 /\
  evaluate (mk_Dopri8Interpolation 1 3 [0; 5] [0; 0] ramp_stages) 1 (Some 2) =
  evaluate (mk_Dopri8Interpolation 1 3 [8; 9] [1; 1] ramp_stages) 1 (Some 2).
Proof.
  assert (H : 3 <> 1) by lra.
  split; [reflexivity|]. split; [reflexivity|]. split; [exact H|].
  exact (evaluate_increment_ignores_y0 1 3 [0; 5] [8; 9] [0; 0] [1; 1]
           ramp_stages 1 2 eq_refl eq_refl H).
Defined.

Lemma stages_2_to_5_unused_witness :
  shape_ok ramp = true /\
  shape_ok ramp_other = true /\
  (forall i, (i = 0 \/ 5 <= i)%nat ->
     nth i (k ramp_other) [] = nth i (k ramp) []) /\
  t1 ramp <> t0 ramp /\
  evaluate ramp_other 2 (Some (5 / 2)) = evaluate ramp 2 (Some (5 / 2)) /\
  derivative ramp_other 2 = derivative ramp 2.
Proof.
  split; [reflexivity|]. split; [reflexivity|].
  split; [exact ramp_rows_agree|]. split; [exact ramp_step|].
  exact (stages_2_to_5_unused ramp ramp_other 2 (Some (5 / 2))
           eq_refl eq_refl eq_refl eq_refl eq_refl ramp_rows_agree ramp_step).
Defined.


Lemma accepted_shapes_witness :
  t1 ramp <> t0 ramp /\
  (evaluate ramp 2 None <> None <->
     length (k ramp) = 14%nat /\
     broadcastable (length (y0 ramp)) (ncols (k ramp)) = true) /\
  (forall v, evaluate ramp 2 None = Some v ->
     length v = broadcast_size (length (y0 ramp)) (ncols (k ramp))) /\
  (derivative ramp 2 <> None <-> length (k ramp) = 14%nat) /\
  (forall d, derivative ramp 2 = Some d -> length d = ncols (k ramp)).
Proof.
  split; [exact ramp_step|]. exact (accepted_shapes ramp 2 ramp_step).
Defined.

Lemma square_field_step : t1 square_field <> t0 square_field.
Proof. simpl. lra. Defined.

Lemma dense_output_quadrature_witness :
  (2 <= 4)%nat /\
  shape_ok square_field = true /\
  t1 square_field <> t0 square_field /\
  k square_field = monomial_stages [3] 2 /\
  exists w,
    evaluate square_field 1 None = Some w /\
    length w = length (y0 square_field) /\
    forall j, (j < length (y0 square_field))%nat ->
      Rabs (nth j w 0
            - (nth j (y0 square_field) 0
               + nth j [3] 0 * (tau square_field 1 ^ 3 / INR 3)))
      <= 1e-15 * Rabs (nth j [3] 0) * abs_powers (tau square_field 1) 6.
Proof.
  assert (H : (2 <= 4)%nat) by lia.
  split; [exact H|]. split; [reflexivity|].
  split; [exact square_field_step|]. split; [reflexivity|].
  exact (proj2 dense_output_quadrature square_field [3] 2%nat 1 H eq_refl
           square_field_step eq_refl).
Defined.

Lemma c_sol_quadrature_witness :
  (1 <= 8 <= order)%nat /\
  (Qabs (moment (c_sol tableau) (nodes tableau) (8 - 1) - Qrecip 8) <= 1e-17)%Q.
Proof.
  assert (H : (1 <= 8 <= order)%nat) by (unfold order; lia).
  split; [exact H|]. exact (c_sol_quadrature 8%nat H).
Defined.


Lemma tableau_explicit_witness :
  nth_error (beta tableau) 12 = Some (firstn 13 (c_sol tableau)) /\
  length (firstn 13 (c_sol tableau)) = 13%nat.
Proof.
  split; [reflexivity|].
  exact (proj1 (proj2 tableau_explicit) 12%nat _ eq_refl).
Defined.

End MoreInstances.

(** ** The interpolation of a step at the end of the step *)

Section StepEndpoint.

Import RungeKutta StepInterpolation.

Local Open Scope R_scope.















End StepEndpoint.

(** ** An instance of the interpolation of a step *)

Section StepInstances.

Import RungeKutta StepInterpolation.

Local Open Scope R_scope.



End StepInstances.
